(** * Token stream player of the Markdown streaming demo

    A shallow embedding of [src/app/page.tsx]: the React component
    [MarkdownStreamingDemo], its five pieces of state, its event handlers and
    its effects.  The two npm packages the component calls, [js-tiktoken] and
    [lz-string], are not part of the repository; they enter the development as
    records of functions ([Tiktoken], [LzString]) over which every definition
    is parameterised. *)

From Stdlib Require Import ZArith List String Ascii Bool Lia.
Import ListNotations.
Local Open Scope string_scope.
Local Open Scope list_scope.
Local Open Scope Z_scope.

(** ** JavaScript values *)

(** Outcome of a call that sits inside a [try { ... } catch] block. *)
Inductive Completion (A : Type) : Type :=
| Returned (a : A)
| Thrown.
Arguments Returned {A} a.
Arguments Thrown {A}.

(** [if (s)] on a string: only the empty string is falsy. *)
Definition truthy (s : string) : bool := negb (String.eqb s "").

(** [if (s)] on a [string | null]. *)
Definition truthyOrNull (s : option string) : bool :=
  match s with
  | Some s' => truthy s'
  | None => false
  end.

(** [a.length] *)
Definition arrayLength {A : Type} (a : list A) : Z := Z.of_nat (List.length a).

(** [a.slice(0, e)]: a negative [e] counts from the end of the array, and the
    end is capped by the length. *)
Definition sliceFromZero {A : Type} (a : list A) (e : Z) : list A :=
  let len := arrayLength a in
  let stop := if e <? 0 then Z.max (len + e) 0 else Z.min e len in
  firstn (Z.to_nat stop) a.

(** ** The two external packages *)

(** [new Tiktoken(o200k_base)]: [encode] and [decode] may throw, the component
    wraps both in [try]/[catch]. *)
Record Tiktoken : Type := {
  encode : string -> Completion (list Z);
  decode : list Z -> Completion string
}.

(** [lz-string]: [decompressFromEncodedURIComponent] returns a string or
    [null], and is called inside [try]/[catch]. *)
Record LzString : Type := {
  compressToEncodedURIComponent : string -> string;
  decompressFromEncodedURIComponent : string -> Completion (option string)
}.

(** ** Component state *)

Definition defaultMarkdown : string := "# Markdown Streaming Demo

This demo shows how **Markdown** is streamed token by token from LLMs.

## Features

- Real-time tokenization using `tiktoken`
- Progressive rendering with `react-markdown`
- Keyboard navigation (‚Üê ‚Üí)
- URL sharing with compression

### Code Example

```javascript
const tokens = encoder.encode(markdown);
console.log('Token count:', tokens.length);
```

> Use the controls below or arrow keys to navigate through tokens!

1. **Step 1**: Paste your markdown
2. **Step 2**: Watch it stream
3. **Step 3**: Share the URL

---

*Happy streaming!* üöÄ".

Record State : Type := {
  markdown : string;
  tokens : list Z;
  currentTokenIndex : Z;
  isPlaying : bool;
  playbackSpeed : Z
}.

Definition initialState : State :=
  {| markdown := defaultMarkdown;
     tokens := [];
     currentTokenIndex := 0;
     isPlaying := false;
     playbackSpeed := 100 |}.

Definition setMarkdown (v : string) (s : State) : State :=
  {| markdown := v;
     tokens := tokens s;
     currentTokenIndex := currentTokenIndex s;
     isPlaying := isPlaying s;
     playbackSpeed := playbackSpeed s |}.

Definition setTokens (v : list Z) (s : State) : State :=
  {| markdown := markdown s;
     tokens := v;
     currentTokenIndex := currentTokenIndex s;
     isPlaying := isPlaying s;
     playbackSpeed := playbackSpeed s |}.

Definition setCurrentTokenIndex (v : Z) (s : State) : State :=
  {| markdown := markdown s;
     tokens := tokens s;
     currentTokenIndex := v;
     isPlaying := isPlaying s;
     playbackSpeed := playbackSpeed s |}.

Definition setIsPlaying (v : bool) (s : State) : State :=
  {| markdown := markdown s;
     tokens := tokens s;
     currentTokenIndex := currentTokenIndex s;
     isPlaying := v;
     playbackSpeed := playbackSpeed s |}.

Definition setPlaybackSpeed (v : Z) (s : State) : State :=
  {| markdown := markdown s;
     tokens := tokens s;
     currentTokenIndex := currentTokenIndex s;
     isPlaying := isPlaying s;
     playbackSpeed := v |}.

(** ** Event handlers *)

Record KeyboardEvent : Type := {
  targetIsTextArea : bool;   (* e.target instanceof HTMLTextAreaElement *)
  key : string
}.

(** The three [<option>]s of the speed [<select>]. *)
Inductive SpeedOption : Type := Fast | Normal | Slow.

Definition optionValue (o : SpeedOption) : Z :=
  match o with
  | Fast => 50
  | Normal => 100
  | Slow => 200
  end.

(** The listener is registered again whenever [tokens.length] changes, so the
    length it closes over is the one of the state it runs in. *)
Definition handleKeyDown (e : KeyboardEvent) (s : State) : State :=
  if targetIsTextArea e then s
  else if String.eqb (key e) "ArrowLeft" then
    setIsPlaying false
      (setCurrentTokenIndex (Z.max 0 (currentTokenIndex s - 1)) s)
  else if String.eqb (key e) "ArrowRight" then
    setIsPlaying false
      (setCurrentTokenIndex
         (Z.min (currentTokenIndex s + 1) (arrayLength (tokens s))) s)
  else if String.eqb (key e) " " then
    setIsPlaying (negb (isPlaying s)) s
  else s.

Definition togglePlayback (s : State) : State :=
  setIsPlaying (negb (isPlaying s)) s.

Definition resetToStart (s : State) : State :=
  setIsPlaying false (setCurrentTokenIndex 0 s).

Definition skipToEnd (s : State) : State :=
  setIsPlaying false (setCurrentTokenIndex (arrayLength (tokens s)) s).

(** [onClick] of the span (and of the newline strip) drawn for the token at
    [index]. *)
Definition tokenOnClick (index : Z) (s : State) : State :=
  setIsPlaying false (setCurrentTokenIndex (index + 1) s).

(** [onChange] of the speed select: [Number(e.target.value)]. *)
Definition speedOnChange (o : SpeedOption) (s : State) : State :=
  setPlaybackSpeed (optionValue o) s.

(** [onChange] of the textarea. *)
Definition textareaOnChange (value : string) (s : State) : State :=
  setMarkdown value s.

(** The callback handed to [setTimeout] by the auto-play effect; [len] is the
    [tokens.length] of the render that scheduled it. *)
Definition timerCallback (len : Z) (s : State) : State :=
  setCurrentTokenIndex (Z.min (currentTokenIndex s + 1) len) s.

(** ** Timers and the running component *)

(** A pending [setTimeout]: when it was scheduled, its delay, and the
    [tokens.length] its callback closes over. *)
Record Timer : Type := {
  scheduledAt : Z;
  delay : Z;
  capturedLength : Z
}.

Definition due (tm : Timer) : Z := scheduledAt tm + delay tm.

(** The committed state, the timer of the auto-play effect (there is never
    more than one: the effect clears the previous one before it runs again)
    and a clock in milliseconds. *)
Record Machine : Type := {
  ui : State;
  pending : option Timer;
  now : Z
}.

Section Component.

Variable encoder : Tiktoken.
Variable lz : LzString.

(** *** Rendering *)

Definition getCurrentMarkdown (s : State) : string :=
  if arrayLength (tokens s) =? 0 then ""
  else
    match decode encoder (sliceFromZero (tokens s) (currentTokenIndex s)) with
    | Returned text => text
    | Thrown => ""
    end.

(** [handleShare]: the value stored under the [md] parameter of the URL that
    is copied to the clipboard. *)
Definition handleShare (s : State) : string :=
  compressToEncodedURIComponent lz (markdown s).

(** *** Effects

    An effect reads the state of the render it belongs to and queues state
    updates, which are applied once all effects of the commit have run. *)

(** "Load markdown from URL on mount"; [search] is
    [urlParams.get("md")]. *)
Definition urlLoadEffect (search : option string) : State -> State :=
  match search with
  | Some compressed =>
      if truthy compressed then
        match decompressFromEncodedURIComponent lz compressed with
        | Returned decompressed =>
            match decompressed with
            | Some text => if truthy text then setMarkdown text else fun s => s
            | None => fun s => s
            end
        | Thrown => fun s => s
        end
      else fun s => s
  | None => fun s => s
  end.

(** "Tokenize markdown when it changes" *)
Definition tokenizeEffect (cur : State) : State -> State :=
  if truthy (markdown cur) then
    match encode encoder (markdown cur) with
    | Returned newTokens =>
        fun s => setCurrentTokenIndex 0 (setTokens newTokens s)
    | Thrown => setTokens []
    end
  else fun s => s.


(** "Auto-play functionality": the timer it schedules (if any) and the update
    it queues. *)
Definition autoplayEffect (cur : State) (clock : Z)
  : option Timer * (State -> State) :=
  if isPlaying cur && (currentTokenIndex cur <? arrayLength (tokens cur)) then
    (Some {| scheduledAt := clock;
             delay := playbackSpeed cur;
             capturedLength := arrayLength (tokens cur) |},
     fun s => s)
  else if isPlaying cur && (currentTokenIndex cur >=? arrayLength (tokens cur))
  then (None, setIsPlaying false)
  else (None, fun s => s).

(** Dependency arrays: [[encoder, markdown]] and
    [[isPlaying, currentTokenIndex, tokens.length, playbackSpeed]]. *)
Definition tokenizeDepsChanged (prev cur : State) : bool :=
  negb (String.eqb (markdown prev) (markdown cur)).

Definition autoplayDepsChanged (prev cur : State) : bool :=
  negb (Bool.eqb (isPlaying prev) (isPlaying cur)
        && (currentTokenIndex prev =? currentTokenIndex cur)
        && (arrayLength (tokens prev) =? arrayLength (tokens cur))
        && (playbackSpeed prev =? playbackSpeed cur)).

(** One commit after the first: [prev] is the state of the previous render,
    [ui m] the state being rendered.  An effect whose dependencies changed is
    cleaned up (the auto-play effect clears its timer) and run again; the
    queued updates give the next state. *)
Definition commit (prev : State) (m : Machine) : Machine :=
  let cur := ui m in
  let queued1 :=
    if tokenizeDepsChanged prev cur then tokenizeEffect cur else fun s => s in
  let auto :=
    if autoplayDepsChanged prev cur then autoplayEffect cur (now m)
    else (pending m, fun s => s) in
  {| ui := snd auto (queued1 cur); pending := fst auto; now := now m |}.

(** Renders follow one another as long as effects queue updates; three
    commits always suffice (see [settle_quiescent]). *)
Fixpoint settle (rounds : nat) (prev : State) (m : Machine) : Machine :=
  match rounds with
  | O => m
  | S rounds' => settle rounds' (ui m) (commit prev m)
  end.

(** The first commit runs every effect against [initialState]. *)
Definition mount (search : option string) (clock : Z) : Machine :=
  let cur := initialState in
  let auto := autoplayEffect cur clock in
  settle 3 cur
    {| ui := snd auto (tokenizeEffect cur (urlLoadEffect search cur));
       pending := fst auto;
       now := clock |}.

(** A handler (or timer callback) [h] runs, then the component re-renders
    until no effect queues an update. *)
Definition dispatch (h : State -> State) (m : Machine) : Machine :=
  settle 3 (ui m) {| ui := h (ui m); pending := pending m; now := now m |}.

(** *** Events *)

Inductive Event : Type :=
| KeyDown (e : KeyboardEvent)
| TokenClick (index : Z)
| ResetClick
| SkipClick
| PlayPauseClick
| SpeedChange (o : SpeedOption)
| TextChange (value : string)
| Elapse (ms : Z)
| TimerFires.

(** A token span exists only for the indices of [tokens.map]. *)
Definition rendered (index : Z) (s : State) : bool :=
  (0 <=? index) && (index <? arrayLength (tokens s)).

Definition react (ev : Event) (m : Machine) : Machine :=
  match ev with
  | KeyDown e => dispatch (handleKeyDown e) m
  | TokenClick index =>
      if rendered index (ui m) then dispatch (tokenOnClick index) m else m
  | ResetClick => dispatch resetToStart m
  | SkipClick => dispatch skipToEnd m
  | PlayPauseClick => dispatch togglePlayback m
  | SpeedChange o => dispatch (speedOnChange o) m
  | TextChange value => dispatch (textareaOnChange value) m
  | Elapse ms =>
      {| ui := ui m; pending := pending m; now := now m + Z.max 0 ms |}
  | TimerFires =>
      match pending m with
      | Some tm =>
          if due tm <=? now m then
            dispatch (timerCallback (capturedLength tm))
              {| ui := ui m; pending := None; now := now m |}
          else m
      | None => m
      end
  end.

(** Let time pass until the pending timer is due, and let it fire. *)
Definition awaitTick (m : Machine) : Machine :=
  match pending m with
  | Some tm => react TimerFires (react (Elapse (due tm - now m)) m)
  | None => m
  end.

Fixpoint run (evs : list Event) (m : Machine) : Machine :=
  match evs with
  | [] => m
  | ev :: evs' => run evs' (react ev m)
  end.

(** The events that move the cursor by hand: the two arrow keys (outside the
    textarea), the two skip buttons and a click on a rendered token. *)
Definition manualNavigation (ev : Event) (m : Machine) : bool :=
  match ev with
  | KeyDown e =>
      negb (targetIsTextArea e)
      && (String.eqb (key e) "ArrowLeft" || String.eqb (key e) "ArrowRight")
  | TokenClick index => rendered index (ui m)
  | ResetClick | SkipClick => true
  | _ => false
  end.

(** [n] timer ticks in a row. *)
Definition ticks (n : nat) (m : Machine) : Machine := Nat.iter n awaitTick m.

(** What the component looks like [j] ticks after play was pressed at cursor
    [c] over [len] tokens. *)
Definition playingFrom (m : Machine) (c : Z) (j : nat) (mj : Machine) : Prop :=
  markdown (ui mj) = markdown (ui m)
  /\ tokens (ui mj) = tokens (ui m)
  /\ playbackSpeed (ui mj) = playbackSpeed (ui m)
  /\ currentTokenIndex (ui mj) = c + Z.of_nat j
  /\ (if c + Z.of_nat j <? arrayLength (tokens (ui m)) then
        isPlaying (ui mj) = true
        /\ pending mj =
             Some {| scheduledAt := now mj;
                     delay := playbackSpeed (ui m);
                     capturedLength := arrayLength (tokens (ui m)) |}
      else isPlaying (ui mj) = false /\ pending mj = None).

(** *** Coherence of the timer with the state *)

(** What the auto-play effect leaves behind when it has run for [s]. *)
Definition scheduledFor (s : State) (p : option Timer) : Prop :=
  if isPlaying s && (currentTokenIndex s <? arrayLength (tokens s)) then
    exists t0 : Z,
      p = Some {| scheduledAt := t0;
                  delay := playbackSpeed s;
                  capturedLength := arrayLength (tokens s) |}
  else p = None.

Definition exhausted (s : State) : Prop :=
  isPlaying s = true /\ arrayLength (tokens s) <= currentTokenIndex s.

Definition coherent (m : Machine) : Prop :=
  scheduledFor (ui m) (pending m) /\ ~ exhausted (ui m).

(** The invariant of the re-rendering loop: unless the auto-play effect is
    about to run again, it has run for the previous render and that render
    was not exhausted. *)
Definition settling (prev : State) (m : Machine) : Prop :=
  autoplayDepsChanged prev (ui m) = false ->
  scheduledFor prev (pending m) /\ ~ exhausted prev.

Inductive Reachable : Machine -> Prop :=
| reach_mount (search : option string) (clock : Z) :
    Reachable (mount search clock)
| reach_react (ev : Event) (m : Machine) :
    Reachable m -> Reachable (react ev m).

(** *** Token visualization *)

(** [text.replace(/c/g, by)] for a single character [c]. *)
Fixpoint replaceAll (c : ascii) (by_ : string) (text : string) : string :=
  match text with
  | EmptyString => EmptyString
  | String x rest =>
      if Ascii.eqb x c then String.append by_ (replaceAll c by_ rest)
      else String x (replaceAll c by_ rest)
  end.

(** [text.includes(c)] for a single character [c]. *)
Fixpoint includesChar (c : ascii) (text : string) : bool :=
  match text with
  | EmptyString => false
  | String x rest => Ascii.eqb x c || includesChar c rest
  end.

(** [s || fallback] on strings. *)
Definition orElse (s fallback : string) : string :=
  if truthy s then s else fallback.

Definition tabChar : ascii := "009"%char.
Definition newlineChar : ascii := "010"%char.
Definition tabMark : string := "‚Üí".
Definition newlineMark : string := "‚§∂".
Definition emptyMark : string := "‚àÖ".

(** What is computed for one token of [tokens.map]: whether its span is
    highlighted, its text, whether the newline strip follows it, and the
    label shown in the span.  ([className] and [title] are functions of these
    and are left out; [onClick] is [tokenOnClick index].) *)
Record TokenSpan : Type := {
  spanIndex : Z;
  isActive : bool;
  tokenText : string;
  isNewline : bool;
  spanLabel : string
}.

(** The body of the [tokens.map] callback.  [encoder.decode([token])] is not
    inside a [try] here. *)
Definition tokenSpan (s : State) (token index : Z) : Completion TokenSpan :=
  match decode encoder [token] with
  | Returned decoded =>
      let text := orElse decoded "" in
      Returned
        {| spanIndex := index;
           isActive := index <? currentTokenIndex s;
           tokenText := text;
           isNewline := includesChar newlineChar text;
           spanLabel :=
             orElse
               (replaceAll newlineChar newlineMark
                  (replaceAll tabChar tabMark text))
               emptyMark |}
  | Thrown => Thrown
  end.

(** [toks.map(...)], the first element having index [index]; a throw in the
    callback ends the rendering. *)
Fixpoint renderSpans (s : State) (index : Z) (toks : list Z)
  : Completion (list TokenSpan) :=
  match toks with
  | [] => Returned []
  | token :: rest =>
      match tokenSpan s token index with
      | Returned span =>
          match renderSpans s (index + 1) rest with
          | Returned spans => Returned (span :: spans)
          | Thrown => Thrown
          end
      | Thrown => Thrown
      end
  end.

Definition tokenVisualization (s : State) : Completion (list TokenSpan) :=
  renderSpans s 0 (tokens s).

(** *** What holds in every state the component reaches *)

(** The token array the tokenize effect stores for a non-empty text. *)
Definition tokenized (text : string) : list Z :=
  match encode encoder text with
  | Returned newTokens => newTokens
  | Thrown => []
  end.

Definition inSync (s : State) : Prop :=
  markdown s <> "" -> tokens s = tokenized (markdown s).

Definition cursorInBounds (s : State) : Prop :=
  0 <= currentTokenIndex s
  /\ (currentTokenIndex s <= arrayLength (tokens s)
      \/ (tokens s = [] /\ exists text, encode encoder text = Thrown)).

Definition speedOffered (s : State) : Prop :=
  exists o : SpeedOption, playbackSpeed s = optionValue o.

Definition isTextChange (ev : Event) : bool :=
  match ev with
  | TextChange _ => true
  | _ => false
  end.

End Component.

(** ** A small vocabulary and a small codec

    Stand-ins for the two packages, used to run the component on concrete
    inputs. *)

Module Sample.

(** [text.includes(needle)] *)
Fixpoint includes (needle text : string) : bool :=
  String.prefix needle text
  || match text with
     | String _ rest => includes needle rest
     | EmptyString => false
     end.

(** One token per byte; like the real encoder with its default arguments, it
    refuses text that spells a special token. *)
Definition byteTiktoken : Tiktoken :=
  {| encode := fun text =>
       if includes "<|endoftext|>" text then Thrown
       else Returned
              (List.map (fun c => Z.of_N (N_of_ascii c))
                 (list_ascii_of_string text));
     decode := fun ids =>
       Returned
         (string_of_list_ascii
            (List.map (fun id => ascii_of_N (Z.to_N id)) ids)) |}.

(** A codec that marks its output with a leading [Q]; decoding throws on a
    token that starts with [!] and returns [null] on any other token it did
    not produce. *)
Definition markLz : LzString :=
  {| compressToEncodedURIComponent := fun text => String "Q" text;
     decompressFromEncodedURIComponent := fun token =>
       match token with
       | String "Q" text => Returned (Some text)
       | String "!" _ => Thrown
       | _ => Returned None
       end |}.

(** The page opened without an [md] parameter, at time 0. *)
Definition fresh : Machine := mount byteTiktoken markLz None 0.

Definition play (evs : list Event) (m : Machine) : Machine :=
  run byteTiktoken evs m.

(** The text [a<TAB>b], one token shown. *)
Definition tabbed : State :=
  ui (play [TextChange (String "a" (String tabChar "b"));
            KeyDown {| targetIsTextArea := false; key := "ArrowRight" |}]
        fresh).

Definition tabbedSpans : list TokenSpan :=
  match tokenVisualization byteTiktoken tabbed with
  | Returned spans => spans
  | Thrown => []
  end.

(** An encoder that cannot decode ids above 255. *)
Definition narrowTiktoken : Tiktoken :=
  {| encode := encode byteTiktoken;
     decode := fun ids =>
       if existsb (fun id => 255 <? id) ids then Thrown
       else decode byteTiktoken ids |}.

End Sample.

(** * Properties *)

(** ** Arrays *)

Lemma arrayLength_nonneg {A : Type} (a : list A) : 0 <= arrayLength a.
Proof. unfold arrayLength. lia. Qed.

Lemma arrayLength_nil_iff {A : Type} (a : list A) :
  arrayLength a = 0 <-> a = [].
Proof.
  unfold arrayLength. destruct a as [|x a]; simpl; split; intro H;
    try reflexivity; try discriminate; lia.
Qed.

Lemma sliceFromZero_all {A : Type} (a : list A) :
  sliceFromZero a (arrayLength a) = a.
Proof.
  unfold sliceFromZero.
  pose proof (arrayLength_nonneg a) as Hlen.
  destruct (arrayLength a <? 0) eqn:Hneg; [apply Z.ltb_lt in Hneg; lia|].
  rewrite Z.min_id. unfold arrayLength. rewrite Nat2Z.id.
  apply firstn_all.
Qed.

Lemma sliceFromZero_firstn {A : Type} (a : list A) (k : nat) :
  (k <= List.length a)%nat -> sliceFromZero a (Z.of_nat k) = firstn k a.
Proof.
  intro Hk. unfold sliceFromZero.
  destruct (Z.of_nat k <? 0) eqn:Hneg; [apply Z.ltb_lt in Hneg; lia|].
  unfold arrayLength. rewrite Z.min_l by lia. now rewrite Nat2Z.id.
Qed.

Lemma truthy_true_iff (s : string) : truthy s = true <-> s <> "".
Proof.
  unfold truthy. rewrite negb_true_iff. split.
  - intros H ->. now rewrite String.eqb_refl in H.
  - intro H. now apply String.eqb_neq.
Qed.

Section Properties.

Variable encoder : Tiktoken.
Variable lz : LzString.

(** ** One commit *)

Lemma autoplayEffect_cases (cur : State) (clock : Z) :
  (isPlaying cur = true
   /\ currentTokenIndex cur < arrayLength (tokens cur)
   /\ autoplayEffect cur clock =
        (Some {| scheduledAt := clock;
                 delay := playbackSpeed cur;
                 capturedLength := arrayLength (tokens cur) |},
         fun s => s))
  \/ (isPlaying cur = true
      /\ arrayLength (tokens cur) <= currentTokenIndex cur
      /\ autoplayEffect cur clock = (None, setIsPlaying false))
  \/ (isPlaying cur = false
      /\ autoplayEffect cur clock = (None, fun s => s)).
Proof.
  unfold autoplayEffect.
  destruct (isPlaying cur); simpl.
  - destruct (currentTokenIndex cur <? arrayLength (tokens cur)) eqn:Hlt.
    + left. apply Z.ltb_lt in Hlt. auto.
    + right; left. apply Z.ltb_ge in Hlt.
      destruct (currentTokenIndex cur >=? arrayLength (tokens cur)) eqn:Hge.
      * auto.
      * rewrite Z.geb_leb in Hge. apply Z.leb_gt in Hge. lia.
  - right; right. auto.
Qed.

Lemma commit_same (m : Machine) : commit encoder (ui m) m = m.
Proof.
  destruct m as [s p n].
  unfold commit, tokenizeDepsChanged, autoplayDepsChanged. simpl.
  rewrite String.eqb_refl, Bool.eqb_reflx, !Z.eqb_refl. reflexivity.
Qed.

Lemma commit_unedited (prev : State) (m : Machine) :
  markdown prev = markdown (ui m) ->
  commit encoder prev m =
    let auto :=
      if autoplayDepsChanged prev (ui m) then autoplayEffect (ui m) (now m)
      else (pending m, fun s => s) in
    {| ui := snd auto (ui m); pending := fst auto; now := now m |}.
Proof.
  intro Hmd. unfold commit, tokenizeDepsChanged.
  rewrite Hmd, String.eqb_refl. reflexivity.
Qed.

Lemma tokenizeEffect_keeps (cur s : State) :
  markdown (tokenizeEffect encoder cur s) = markdown s
  /\ isPlaying (tokenizeEffect encoder cur s) = isPlaying s
  /\ playbackSpeed (tokenizeEffect encoder cur s) = playbackSpeed s.
Proof.
  unfold tokenizeEffect.
  destruct (truthy (markdown cur)); [|auto].
  destruct (encode encoder (markdown cur)); simpl; auto.
Qed.

Lemma commit_keeps (prev : State) (m : Machine) :
  markdown (ui (commit encoder prev m)) = markdown (ui m)
  /\ playbackSpeed (ui (commit encoder prev m)) = playbackSpeed (ui m)
  /\ now (commit encoder prev m) = now m.
Proof.
  unfold commit; simpl.
  destruct (tokenizeEffect_keeps (ui m) (ui m)) as (Hmd & _ & Hsp).
  destruct (tokenizeDepsChanged prev (ui m));
    destruct (autoplayDepsChanged prev (ui m)); simpl; auto;
    destruct (autoplayEffect_cases (ui m) (now m))
      as [(_ & _ & ->) | [(_ & _ & ->) | (_ & ->)]]; simpl; auto.
Qed.

(** Without an edit, a commit changes at most [isPlaying], and only from
    [true] to [false]. *)
Lemma commit_unedited_ui (prev : State) (m : Machine) :
  markdown prev = markdown (ui m) ->
  ui (commit encoder prev m) = ui m
  \/ (isPlaying (ui m) = true
      /\ arrayLength (tokens (ui m)) <= currentTokenIndex (ui m)
      /\ ui (commit encoder prev m) = setIsPlaying false (ui m)).
Proof.
  intro Hmd. rewrite (commit_unedited prev m Hmd).
  destruct (autoplayDepsChanged prev (ui m)); simpl; [|auto].
  destruct (autoplayEffect_cases (ui m) (now m))
    as [(_ & _ & ->) | [(Hp & Hge & ->) | (_ & ->)]]; simpl; auto.
Qed.

(** A stopped component queues nothing once the text is tokenized. *)
Lemma commit_stopped (prev : State) (m : Machine) :
  markdown prev = markdown (ui m) ->
  isPlaying (ui m) = false ->
  ui (commit encoder prev m) = ui m.
Proof.
  intros Hmd Hstop.
  destruct (commit_unedited_ui prev m Hmd) as [H | (H & _)]; [exact H|].
  congruence.
Qed.

(** Effects never start playback. *)
Lemma commit_keeps_stopped (prev : State) (m : Machine) :
  isPlaying (ui m) = false -> isPlaying (ui (commit encoder prev m)) = false.
Proof.
  intro Hstop. unfold commit; simpl.
  destruct (tokenizeEffect_keeps (ui m) (ui m)) as (_ & Hpl & _).
  assert (Hq : isPlaying
                 ((if tokenizeDepsChanged prev (ui m)
                   then tokenizeEffect encoder (ui m) else fun s => s) (ui m))
               = false)
    by (destruct (tokenizeDepsChanged prev (ui m)); congruence).
  destruct (autoplayDepsChanged prev (ui m)); simpl; [|exact Hq].
  destruct (autoplayEffect_cases (ui m) (now m))
    as [(_ & _ & ->) | [(_ & _ & ->) | (_ & ->)]]; simpl; auto.
Qed.

(** ** Re-rendering comes to rest *)

Lemma settle_rest (n : nat) (m : Machine) : settle encoder n (ui m) m = m.
Proof.
  induction n as [|n IH]; simpl; [reflexivity|].
  now rewrite commit_same.
Qed.

Lemma settle_three (prev : State) (m : Machine) :
  let m1 := commit encoder prev m in
  let m2 := commit encoder (ui m) m1 in
  settle encoder 3 prev m = commit encoder (ui m1) m2.
Proof. reflexivity. Qed.

(** The third commit queues no update: its render is the last one. *)
Lemma third_commit_quiet (prev : State) (m : Machine) :
  let m1 := commit encoder prev m in
  let m2 := commit encoder (ui m) m1 in
  ui (commit encoder (ui m1) m2) = ui m2.
Proof.
  intros m1 m2.
  assert (Hmd : markdown (ui m) = markdown (ui m1))
    by (symmetry; apply commit_keeps).
  assert (Hmd2 : markdown (ui m1) = markdown (ui m2))
    by (symmetry; apply commit_keeps).
  destruct (commit_unedited_ui (ui m) m1 Hmd) as [Hsame | (_ & _ & Hstop)];
    fold m2 in Hsame || fold m2 in Hstop.
  - rewrite <- Hsame. now rewrite commit_same.
  - apply commit_stopped; [exact Hmd2|]. now rewrite Hstop.
Qed.

(** X1.  Re-rendering comes to rest: after a handler has run, the effects
    queue state updates for at most three commits; any further commit
    changes nothing, whatever the state and the encoder. *)
Theorem settle_quiescent (n : nat) (prev : State) (m : Machine) :
  settle encoder (3 + n) prev m = settle encoder 3 prev m.
Proof.
  change (settle encoder (3 + n) prev m)
    with (settle encoder n
            (ui (commit encoder (ui m) (commit encoder prev m)))
            (commit encoder (ui (commit encoder prev m))
               (commit encoder (ui m) (commit encoder prev m)))).
  rewrite settle_three. cbv zeta.
  rewrite <- (third_commit_quiet prev m) at 1.
  apply settle_rest.
Qed.

(** ** Handlers followed by re-rendering *)

Lemma settle_keeps_stopped (n : nat) (prev : State) (m : Machine) :
  isPlaying (ui m) = false -> isPlaying (ui (settle encoder n prev m)) = false.
Proof.
  revert prev m. induction n as [|n IH]; intros prev m Hstop; simpl.
  - exact Hstop.
  - apply IH. now apply commit_keeps_stopped.
Qed.

(** Re-rendering without an edit leaves text, tokens, cursor, speed and clock
    alone. *)
Lemma settle_unedited (n : nat) (prev : State) (m : Machine) :
  markdown prev = markdown (ui m) ->
  markdown (ui (settle encoder n prev m)) = markdown (ui m)
  /\ tokens (ui (settle encoder n prev m)) = tokens (ui m)
  /\ currentTokenIndex (ui (settle encoder n prev m)) = currentTokenIndex (ui m)
  /\ playbackSpeed (ui (settle encoder n prev m)) = playbackSpeed (ui m)
  /\ now (settle encoder n prev m) = now m.
Proof.
  revert prev m. induction n as [|n IH]; intros prev m Hmd; simpl.
  - auto.
  - destruct (commit_keeps prev m) as (Hk1 & Hk2 & Hk3).
    destruct (IH (ui m) (commit encoder prev m) (eq_sym Hk1))
      as (H1 & H2 & H3 & H4 & H5).
    rewrite H1, H2, H3, H4, H5, Hk1, Hk2, Hk3.
    destruct (commit_unedited_ui prev m Hmd) as [-> | (_ & _ & ->)];
      simpl; auto.
Qed.

Lemma dispatch_unedited_stopped (h : State -> State) (m : Machine) :
  markdown (h (ui m)) = markdown (ui m) ->
  isPlaying (h (ui m)) = false ->
  dispatch encoder h m =
    {| ui := h (ui m);
       pending := if autoplayDepsChanged (ui m) (h (ui m)) then None
                  else pending m;
       now := now m |}.
Proof.
  intros Hmd Hstop. unfold dispatch.
  change (settle encoder 3 (ui m) ?m0)
    with (settle encoder 2 (ui m0) (commit encoder (ui m) m0)).
  rewrite commit_unedited by (simpl; congruence). simpl ui; simpl now.
  simpl pending.
  destruct (autoplayEffect_cases (h (ui m)) (now m))
    as [(Hp & _) | [(Hp & _) | (_ & ->)]]; try congruence.
  destruct (autoplayDepsChanged (ui m) (h (ui m))); cbv zeta; simpl fst;
    simpl snd.
  - apply (settle_rest 2 {| ui := h (ui m); pending := None; now := now m |}).
  - apply (settle_rest 2
             {| ui := h (ui m); pending := pending m; now := now m |}).
Qed.

Lemma dispatch_unedited_playing (h : State -> State) (m : Machine) :
  markdown (h (ui m)) = markdown (ui m) ->
  autoplayDepsChanged (ui m) (h (ui m)) = true ->
  isPlaying (h (ui m)) = true ->
  currentTokenIndex (h (ui m)) < arrayLength (tokens (h (ui m))) ->
  dispatch encoder h m =
    {| ui := h (ui m);
       pending := Some {| scheduledAt := now m;
                          delay := playbackSpeed (h (ui m));
                          capturedLength := arrayLength (tokens (h (ui m))) |};
       now := now m |}.
Proof.
  intros Hmd Hdeps Hplay Hlt. unfold dispatch.
  change (settle encoder 3 (ui m) ?m0)
    with (settle encoder 2 (ui m0) (commit encoder (ui m) m0)).
  rewrite commit_unedited by (simpl; congruence). simpl ui; simpl now.
  rewrite Hdeps.
  destruct (autoplayEffect_cases (h (ui m)) (now m))
    as [(_ & _ & ->) | [(_ & Hge & _) | (Hp & _)]]; try congruence; try lia.
  cbv zeta; simpl fst; simpl snd.
  apply (settle_rest 2
           {| ui := h (ui m);
              pending := Some {| scheduledAt := now m;
                                 delay := playbackSpeed (h (ui m));
                                 capturedLength :=
                                   arrayLength (tokens (h (ui m))) |};
              now := now m |}).
Qed.

Lemma dispatch_unedited_exhausted (h : State -> State) (m : Machine) :
  markdown (h (ui m)) = markdown (ui m) ->
  autoplayDepsChanged (ui m) (h (ui m)) = true ->
  isPlaying (h (ui m)) = true ->
  arrayLength (tokens (h (ui m))) <= currentTokenIndex (h (ui m)) ->
  dispatch encoder h m =
    {| ui := setIsPlaying false (h (ui m)); pending := None; now := now m |}.
Proof.
  intros Hmd Hdeps Hplay Hge. unfold dispatch.
  change (settle encoder 3 (ui m) ?m0)
    with (settle encoder 1
            (ui (commit encoder (ui m) m0))
            (commit encoder (ui m0) (commit encoder (ui m) m0))).
  rewrite commit_unedited by (simpl; congruence). simpl ui; simpl now.
  rewrite Hdeps.
  destruct (autoplayEffect_cases (h (ui m)) (now m))
    as [(_ & Hlt & _) | [(_ & _ & ->) | (Hp & _)]]; try congruence; try lia.
  cbv zeta; simpl fst; simpl snd.
  rewrite commit_unedited by reflexivity. simpl ui; simpl now; simpl pending.
  assert (Hchg : autoplayDepsChanged (h (ui m)) (setIsPlaying false (h (ui m)))
                 = true).
  { unfold autoplayDepsChanged. simpl. rewrite Hplay. reflexivity. }
  rewrite Hchg.
  destruct (autoplayEffect_cases (setIsPlaying false (h (ui m))) (now m))
    as [(Hp & _) | [(Hp & _) | (_ & ->)]]; try discriminate Hp.
  cbv zeta; simpl fst; simpl snd.
  apply (settle_rest 1
           {| ui := setIsPlaying false (h (ui m));
              pending := None; now := now m |}).
Qed.

(** ** Manual navigation *)

Lemma manualNavigation_handler (ev : Event) (m : Machine) :
  manualNavigation ev m = true ->
  exists h : State -> State,
    react encoder ev m = dispatch encoder h m
    /\ markdown (h (ui m)) = markdown (ui m)
    /\ tokens (h (ui m)) = tokens (ui m)
    /\ isPlaying (h (ui m)) = false
    /\ (0 <= currentTokenIndex (ui m) <= arrayLength (tokens (ui m)) ->
        0 <= currentTokenIndex (h (ui m)) <= arrayLength (tokens (ui m))).
Proof.
  destruct ev as [e | index | | | | o | value | ms | ]; simpl;
    try discriminate; intro Hnav.
  - exists (handleKeyDown e). unfold handleKeyDown.
    apply andb_true_iff in Hnav as [Htarget Hkey].
    apply negb_true_iff in Htarget. rewrite Htarget.
    destruct (String.eqb (key e) "ArrowLeft"); simpl.
    + repeat split; lia.
    + simpl in Hkey. rewrite Hkey. simpl. repeat split; lia.
  - rewrite Hnav. exists (tokenOnClick index). simpl.
    unfold rendered in Hnav. apply andb_true_iff in Hnav as [Hlo Hhi].
    apply Z.leb_le in Hlo. apply Z.ltb_lt in Hhi.
    repeat split; lia.
  - exists resetToStart. simpl. repeat split; lia.
  - exists skipToEnd. simpl. repeat split; lia.
Qed.

(** C4.  Manual navigation stops auto-play: after an arrow key pressed
    outside the textarea, a click on either skip button or a click on a
    rendered token, and after the re-rendering that follows,
    [isPlaying] is [false], whatever the state was before. *)
Theorem manual_navigation_stops_autoplay (ev : Event) (m : Machine) :
  manualNavigation ev m = true ->
  isPlaying (ui (react encoder ev m)) = false.
Proof.
  intro Hnav.
  destruct (manualNavigation_handler ev m Hnav) as (h & -> & _ & _ & Hstop & _).
  unfold dispatch. now apply settle_keeps_stopped.
Qed.

(** X20.  From a cursor inside [[0, tokens.length]], every manual
    navigation leaves it there: the arrow keys clamp with [Math.max(0, ...)]
    and [Math.min(..., tokens.length)], the skip buttons store [0] and
    [tokens.length], and a click stores [index + 1] for the index of a
    rendered token; the token sequence itself is untouched. *)
Theorem manual_navigation_keeps_cursor_in_range (ev : Event) (m : Machine) :
  manualNavigation ev m = true ->
  0 <= currentTokenIndex (ui m) <= arrayLength (tokens (ui m)) ->
  tokens (ui (react encoder ev m)) = tokens (ui m)
  /\ 0 <= currentTokenIndex (ui (react encoder ev m))
       <= arrayLength (tokens (ui (react encoder ev m))).
Proof.
  intros Hnav Hrange.
  destruct (manualNavigation_handler ev m Hnav)
    as (h & -> & Hmd & Htok & _ & Hin).
  unfold dispatch.
  destruct (settle_unedited 3 (ui m)
              {| ui := h (ui m); pending := pending m; now := now m |}
              (eq_sym Hmd))
    as (_ & -> & -> & _).
  simpl. rewrite Htok. split; [reflexivity|]. now apply Hin.
Qed.

(** ** The rendered prefix *)

(** C10.  With an empty token array [getCurrentMarkdown] returns the empty
    string for every cursor and every encoder: [decode] is not consulted,
    whatever it would have returned or thrown. *)
Theorem empty_tokens_render_empty (s : State) :
  arrayLength (tokens s) = 0 -> getCurrentMarkdown encoder s = "".
Proof.
  intro Hlen. unfold getCurrentMarkdown. now rewrite Hlen.
Qed.

(** Otherwise the rendered text is the decoded prefix. *)
Lemma getCurrentMarkdown_prefix (s : State) (k : nat) :
  tokens s <> [] ->
  currentTokenIndex s = Z.of_nat k ->
  (k <= List.length (tokens s))%nat ->
  getCurrentMarkdown encoder s =
    match decode encoder (firstn k (tokens s)) with
    | Returned text => text
    | Thrown => ""
    end.
Proof.
  intros Hne Hk Hle. unfold getCurrentMarkdown.
  destruct (arrayLength (tokens s) =? 0) eqn:Hz.
  - apply Z.eqb_eq, arrayLength_nil_iff in Hz. contradiction.
  - rewrite Hk. now rewrite sliceFromZero_firstn.
Qed.

(** ** Auto-play *)

Lemma play_starts (m : Machine) :
  isPlaying (ui m) = false ->
  currentTokenIndex (ui m) < arrayLength (tokens (ui m)) ->
  react encoder PlayPauseClick m =
    {| ui := setIsPlaying true (ui m);
       pending := Some {| scheduledAt := now m;
                          delay := playbackSpeed (ui m);
                          capturedLength := arrayLength (tokens (ui m)) |};
       now := now m |}.
Proof.
  intros Hstop Hlt. simpl.
  rewrite dispatch_unedited_playing; unfold togglePlayback; rewrite ?Hstop;
    simpl; try reflexivity; try assumption.
  unfold autoplayDepsChanged. simpl. now rewrite Hstop.
Qed.

Lemma play_exhausted (m : Machine) :
  isPlaying (ui m) = false ->
  pending m = None ->
  arrayLength (tokens (ui m)) <= currentTokenIndex (ui m) ->
  react encoder PlayPauseClick m = m.
Proof.
  intros Hstop Hnone Hge. simpl.
  rewrite dispatch_unedited_exhausted; unfold togglePlayback; rewrite ?Hstop;
    simpl; try reflexivity; try assumption.
  - destruct m as [[md tk c pl sp] p n]. simpl in *. now subst.
  - unfold autoplayDepsChanged. simpl. now rewrite Hstop.
Qed.

(** One tick of a playing component: the cursor moves by one, and either a
    new timer is scheduled or playback stops. *)
Lemma awaitTick_playing (m : Machine) (tm : Timer) :
  pending m = Some tm ->
  capturedLength tm = arrayLength (tokens (ui m)) ->
  isPlaying (ui m) = true ->
  currentTokenIndex (ui m) < arrayLength (tokens (ui m)) ->
  awaitTick encoder m =
    let clock := now m + Z.max 0 (due tm - now m) in
    let moved := setCurrentTokenIndex (currentTokenIndex (ui m) + 1) (ui m) in
    if currentTokenIndex (ui m) + 1 <? arrayLength (tokens (ui m)) then
      {| ui := moved;
         pending := Some {| scheduledAt := clock;
                            delay := playbackSpeed (ui m);
                            capturedLength := arrayLength (tokens (ui m)) |};
         now := clock |}
    else {| ui := setIsPlaying false moved; pending := None; now := clock |}.
Proof.
  intros Hpend Hcap Hplay Hlt.
  unfold awaitTick. rewrite Hpend. simpl. rewrite Hpend.
  destruct (due tm <=? now m + Z.max 0 (due tm - now m)) eqn:Hdue;
    [|apply Z.leb_gt in Hdue; lia].
  assert (Hcb : timerCallback (capturedLength tm) (ui m)
                = setCurrentTokenIndex (currentTokenIndex (ui m) + 1) (ui m)).
  { unfold timerCallback. rewrite Hcap. f_equal. lia. }
  assert (Hdeps : autoplayDepsChanged (ui m)
                    (setCurrentTokenIndex (currentTokenIndex (ui m) + 1) (ui m))
                  = true).
  { unfold autoplayDepsChanged. simpl.
    replace (currentTokenIndex (ui m) =? currentTokenIndex (ui m) + 1)
      with false by (symmetry; apply Z.eqb_neq; lia).
    now rewrite andb_false_r. }
  destruct (currentTokenIndex (ui m) + 1 <? arrayLength (tokens (ui m)))
    eqn:Hnext.
  - apply Z.ltb_lt in Hnext.
    rewrite dispatch_unedited_playing; simpl ui; simpl now; rewrite ?Hcb;
      simpl; try reflexivity; try assumption.
  - apply Z.ltb_ge in Hnext.
    rewrite dispatch_unedited_exhausted; simpl ui; simpl now; rewrite ?Hcb;
      simpl; try reflexivity; try assumption.
Qed.

Lemma ticks_0 (m : Machine) : ticks encoder 0 m = m.
Proof. reflexivity. Qed.

Lemma ticks_S (j : nat) (m : Machine) :
  ticks encoder (S j) m = awaitTick encoder (ticks encoder j m).
Proof. reflexivity. Qed.

Lemma ticks_playingFrom (m : Machine) (j : nat) :
  isPlaying (ui m) = false ->
  currentTokenIndex (ui m) + Z.of_nat j <= arrayLength (tokens (ui m)) ->
  currentTokenIndex (ui m) < arrayLength (tokens (ui m)) ->
  playingFrom m (currentTokenIndex (ui m)) j
    (ticks encoder j (react encoder PlayPauseClick m)).
Proof.
  intros Hstop Hj Hlt. induction j as [|j IH].
  - rewrite ticks_0, play_starts by assumption.
    unfold playingFrom. simpl. rewrite Z.add_0_r.
    apply Z.ltb_lt in Hlt. rewrite Hlt. auto 10.
  - assert (Hj' : currentTokenIndex (ui m) + Z.of_nat j
                  < arrayLength (tokens (ui m))) by lia.
    specialize (IH ltac:(lia)).
    destruct IH as (Hmd & Htok & Hsp & Hcur & Hrun).
    apply Z.ltb_lt in Hj'. rewrite Hj' in Hrun. apply Z.ltb_lt in Hj'.
    destruct Hrun as [Hplay Hpend].
    rewrite ticks_S.
    set (mj := ticks encoder j (react encoder PlayPauseClick m)) in *.
    rewrite (awaitTick_playing mj _ Hpend) by (simpl; congruence).
    cbv zeta. rewrite Htok, Hcur, Hsp.
    replace (currentTokenIndex (ui m) + Z.of_nat j + 1)
      with (currentTokenIndex (ui m) + Z.of_nat (S j)) by lia.
    unfold playingFrom.
    destruct (currentTokenIndex (ui m) + Z.of_nat (S j)
              <? arrayLength (tokens (ui m))); simpl; auto 10.
Qed.

(** C5.  Pressing play on a stopped component whose cursor is at (or past)
    the end changes nothing: [togglePlayback] sets [isPlaying], the auto-play
    effect of the commit that follows clears it again without scheduling a
    timer, and the component comes to rest in the state it was in before the
    click.  Pressing it with the cursor [c] before the end
    and letting the timer fire moves the cursor by exactly one token per tick:
    after [j] ticks it is [c + j], never beyond [tokens.length]; while it is
    short of the end the component is playing with a timer pending, and once
    it reaches the end the component is stopped with no timer, so that no
    further tick occurs. *)
Theorem autoplay_runs_to_the_end_and_stops (m : Machine) :
  isPlaying (ui m) = false ->
  pending m = None ->
  let len := arrayLength (tokens (ui m)) in
  let c := currentTokenIndex (ui m) in
  (len <= c -> react encoder PlayPauseClick m = m)
  /\ (c < len ->
      forall j : nat,
        c + Z.of_nat j <= len ->
        let mj := ticks encoder j (react encoder PlayPauseClick m) in
        tokens (ui mj) = tokens (ui m)
        /\ currentTokenIndex (ui mj) = c + Z.of_nat j
        /\ currentTokenIndex (ui mj) <= len
        /\ (c + Z.of_nat j < len ->
            isPlaying (ui mj) = true
            /\ exists tm, pending mj = Some tm
                          /\ delay tm = playbackSpeed (ui m))
        /\ (c + Z.of_nat j = len ->
            isPlaying (ui mj) = false
            /\ pending mj = None
            /\ awaitTick encoder mj = mj
            /\ react encoder TimerFires mj = mj)).
Proof.
  intros Hstop Hnone len c. split.
  - intro Hge. now apply play_exhausted.
  - intros Hlt j Hj mj.
    destruct (ticks_playingFrom m j Hstop Hj Hlt)
      as (_ & Htok & _ & Hcur & Hrun).
    fold mj in Htok, Hcur, Hrun. fold c len in Hcur, Hrun.
    split; [exact Htok|]. split; [exact Hcur|]. split; [lia|]. split.
    + intro Hshort. apply Z.ltb_lt in Hshort. rewrite Hshort in Hrun.
      destruct Hrun as [Hplay Hpend]. split; [exact Hplay|].
      eexists. split; [exact Hpend|reflexivity].
    + intro Hend.
      assert (Hz : (c + Z.of_nat j <? len) = false) by (apply Z.ltb_ge; lia).
      rewrite Hz in Hrun. destruct Hrun as [Hplay Hpend].
      split; [exact Hplay|]. split; [exact Hpend|]. split.
      * unfold awaitTick. now rewrite Hpend.
      * simpl. now rewrite Hpend.
Qed.

(** ** Speed *)

(** C9, as amended.  [playbackSpeed] is a dependency of the auto-play effect:
    choosing another speed while a tick is pending clears that timer and
    schedules a new one, due the new delay after the moment of the change.
    Choosing the speed already in force changes nothing. *)
Theorem speed_change_reschedules_pending_tick (m : Machine) (o : SpeedOption) :
  isPlaying (ui m) = true ->
  currentTokenIndex (ui m) < arrayLength (tokens (ui m)) ->
  (optionValue o <> playbackSpeed (ui m) ->
   react encoder (SpeedChange o) m =
     {| ui := setPlaybackSpeed (optionValue o) (ui m);
        pending := Some {| scheduledAt := now m;
                           delay := optionValue o;
                           capturedLength := arrayLength (tokens (ui m)) |};
        now := now m |})
  /\ (optionValue o = playbackSpeed (ui m) ->
      react encoder (SpeedChange o) m = m).
Proof.
  intros Hplay Hlt. split; intro Hv; simpl.
  - rewrite dispatch_unedited_playing; simpl; try reflexivity; try assumption.
    unfold autoplayDepsChanged. simpl.
    replace (playbackSpeed (ui m) =? optionValue o)
      with false by (symmetry; apply Z.eqb_neq; congruence).
    now rewrite andb_false_r.
  - unfold dispatch, speedOnChange. rewrite Hv.
    replace {| ui := setPlaybackSpeed (playbackSpeed (ui m)) (ui m);
               pending := pending m; now := now m |} with m
      by (now destruct m as [[md tk c pl sp] p n]).
    apply settle_rest.
Qed.

(** ** Editing the text *)

Lemma autoplayDepsChanged_setMarkdown (v : string) (s : State) :
  autoplayDepsChanged s (setMarkdown v s) = false.
Proof.
  unfold autoplayDepsChanged. simpl.
  now rewrite Bool.eqb_reflx, !Z.eqb_refl.
Qed.

(** The first commit after an edit runs the tokenize effect and nothing
    else. *)
Lemma text_change_first_commit (m : Machine) (value : string) :
  value <> markdown (ui m) ->
  react encoder (TextChange value) m =
    settle encoder 2 (setMarkdown value (ui m))
      {| ui := tokenizeEffect encoder (setMarkdown value (ui m))
                 (setMarkdown value (ui m));
         pending := pending m;
         now := now m |}.
Proof.
  intro Hne. simpl. unfold dispatch, textareaOnChange.
  change (settle encoder 3 (ui m) ?m0)
    with (settle encoder 2 (ui m0) (commit encoder (ui m) m0)).
  unfold commit at 1. cbn [ui now pending].
  rewrite autoplayDepsChanged_setMarkdown. cbn [fst snd].
  unfold tokenizeDepsChanged. cbn [markdown setMarkdown].
  replace (String.eqb (markdown (ui m)) value)
    with false by (symmetry; apply String.eqb_neq; congruence).
  reflexivity.
Qed.

(** While the cursor is short of the end, re-rendering without an edit does
    not touch [isPlaying]. *)
Lemma settle_unedited_keeps_playing (n : nat) (prev : State) (m : Machine) :
  markdown prev = markdown (ui m) ->
  currentTokenIndex (ui m) < arrayLength (tokens (ui m)) ->
  isPlaying (ui (settle encoder n prev m)) = isPlaying (ui m).
Proof.
  revert prev m. induction n as [|n IH]; intros prev m Hmd Hlt; simpl.
  - reflexivity.
  - destruct (commit_unedited_ui prev m Hmd) as [Hsame | (_ & Hge & _)];
      [|lia].
    rewrite IH; rewrite Hsame; auto.
Qed.

(** C6, as amended.  Replacing the text by a different, non-empty text that
    the encoder accepts leaves the component with that text, its encoding as
    token sequence and the cursor at 0; playback is not stopped: [isPlaying]
    keeps its value whenever the new sequence is not empty.  Replacing the
    text by the empty string stores the empty string and nothing else: the
    tokenize effect skips it, so tokens, cursor, playback and the pending
    timer stay as they were. *)
Theorem text_change_reencodes_nonempty_text (m : Machine) :
  (forall (value : string) (newTokens : list Z),
     value <> "" ->
     value <> markdown (ui m) ->
     encode encoder value = Returned newTokens ->
     let m' := react encoder (TextChange value) m in
     markdown (ui m') = value
     /\ tokens (ui m') = newTokens
     /\ currentTokenIndex (ui m') = 0
     /\ (newTokens <> [] -> isPlaying (ui m') = isPlaying (ui m)))
  /\ react encoder (TextChange "") m =
       {| ui := setMarkdown "" (ui m); pending := pending m; now := now m |}.
Proof.
  split.
  - intros value newTokens Hne Hdiff Henc m'. unfold m'.
    rewrite (text_change_first_commit m value Hdiff).
    unfold tokenizeEffect. cbn [markdown setMarkdown].
    apply truthy_true_iff in Hne. rewrite Hne, Henc.
    set (m1 := {| ui := setCurrentTokenIndex 0
                          (setTokens newTokens (setMarkdown value (ui m)));
                  pending := pending m; now := now m |}).
    destruct (settle_unedited 2 (setMarkdown value (ui m)) m1 eq_refl)
      as (-> & -> & -> & _).
    repeat split.
    intro Hsome.
    rewrite settle_unedited_keeps_playing; try reflexivity.
    simpl. pose proof (arrayLength_nonneg newTokens) as Hlen.
    assert (arrayLength newTokens <> 0)
      by (intro Hz; now apply arrayLength_nil_iff in Hz).
    lia.
  - simpl. unfold dispatch, textareaOnChange.
    change (settle encoder 3 (ui m) ?m0)
      with (settle encoder 2 (ui m0) (commit encoder (ui m) m0)).
    unfold commit at 1. cbn [ui now pending].
    rewrite autoplayDepsChanged_setMarkdown. cbn [fst snd].
    unfold tokenizeEffect. cbn [markdown setMarkdown].
    change (truthy "") with false. cbv iota.
    replace ((if tokenizeDepsChanged (ui m) (setMarkdown "" (ui m))
              then fun s : State => s else fun s : State => s)
               (setMarkdown "" (ui m)))
      with (setMarkdown "" (ui m))
      by (now destruct (tokenizeDepsChanged (ui m) (setMarkdown "" (ui m)))).
    apply (settle_rest 2
             {| ui := setMarkdown "" (ui m);
                pending := pending m; now := now m |}).
Qed.

(** C8, what the code does.  When the encoder throws on the new text the
    [catch] branch stores an empty token array, so the rendered text is
    empty; it stores nothing else: the cursor is not reset and keeps the
    value it had over the previous token sequence. *)
Theorem encode_failure_empties_tokens_but_keeps_cursor
  (m : Machine) (value : string) :
  value <> "" ->
  value <> markdown (ui m) ->
  encode encoder value = Thrown ->
  let m' := react encoder (TextChange value) m in
  markdown (ui m') = value
  /\ tokens (ui m') = []
  /\ currentTokenIndex (ui m') = currentTokenIndex (ui m)
  /\ getCurrentMarkdown encoder (ui m') = "".
Proof.
  intros Hne Hdiff Henc m'. unfold m'.
  rewrite (text_change_first_commit m value Hdiff).
  unfold tokenizeEffect. cbn [markdown setMarkdown].
  apply truthy_true_iff in Hne. rewrite Hne, Henc.
  set (m1 := {| ui := setTokens [] (setMarkdown value (ui m));
                pending := pending m; now := now m |}).
  destruct (settle_unedited 2 (setMarkdown value (ui m)) m1 eq_refl)
    as (Hmd & Htok & Hcur & _).
  rewrite Hmd, Hcur. repeat split; try exact Htok.
  unfold getCurrentMarkdown. now rewrite Htok.
Qed.

(** ** The timer follows the state *)

Lemma autoplayDeps_same (prev cur : State) :
  autoplayDepsChanged prev cur = false ->
  isPlaying prev = isPlaying cur
  /\ currentTokenIndex prev = currentTokenIndex cur
  /\ arrayLength (tokens prev) = arrayLength (tokens cur)
  /\ playbackSpeed prev = playbackSpeed cur.
Proof.
  unfold autoplayDepsChanged. intro H. apply negb_false_iff in H.
  repeat (apply andb_true_iff in H as [H ?]).
  repeat split; try (now apply Z.eqb_eq). now apply Bool.eqb_prop.
Qed.

Lemma autoplayEffect_scheduledFor (cur : State) (clock : Z) :
  scheduledFor cur (fst (autoplayEffect cur clock)).
Proof.
  unfold scheduledFor.
  destruct (autoplayEffect_cases cur clock)
    as [(Hp & Hlt & ->) | [(Hp & Hge & ->) | (Hp & ->)]]; rewrite Hp; simpl.
  - apply Z.ltb_lt in Hlt. rewrite Hlt. now exists clock.
  - apply Z.ltb_ge in Hge. now rewrite Hge.
  - reflexivity.
Qed.

Lemma commit_settling (prev : State) (m : Machine) :
  settling prev m -> settling (ui m) (commit encoder prev m).
Proof.
  intros Hinv Hquiet.
  destruct (autoplayDepsChanged prev (ui m)) eqn:Hdeps.
  - assert (Hpend : pending (commit encoder prev m)
                    = fst (autoplayEffect (ui m) (now m)))
      by (unfold commit; now rewrite Hdeps).
    rewrite Hpend. split; [apply autoplayEffect_scheduledFor|].
    intros [Hplay Hge].
    apply autoplayDeps_same in Hquiet as (Hsame & _).
    assert (Hoff : isPlaying (ui (commit encoder prev m)) = false).
    { unfold commit. rewrite Hdeps. cbn [ui].
      destruct (autoplayEffect_cases (ui m) (now m))
        as [(_ & Hlt & _) | [(_ & _ & ->) | (Hp & _)]];
        [lia | reflexivity | congruence]. }
    congruence.
  - destruct (Hinv Hdeps) as [Hsched Hnot].
    apply autoplayDeps_same in Hdeps as (H1 & H2 & H3 & H4).
    assert (Hpend : pending (commit encoder prev m) = pending m).
    { unfold commit. cbn [pending].
      destruct (autoplayDepsChanged prev (ui m)) eqn:Hd; [|reflexivity].
      exfalso. unfold autoplayDepsChanged in Hd.
      rewrite H1, H2, H3, H4, Bool.eqb_reflx, !Z.eqb_refl in Hd.
      discriminate. }
    rewrite Hpend. unfold scheduledFor, exhausted in *.
    rewrite <- H1, <- H2, <- H3, <- H4. auto.
Qed.

Lemma settle_coherent (prev : State) (m : Machine) :
  settling prev m -> coherent (settle encoder 3 prev m).
Proof.
  intro Hinv. rewrite settle_three. cbv zeta.
  set (m1 := commit encoder prev m).
  set (m2 := commit encoder (ui m) m1).
  assert (H3 : settling (ui m2) (commit encoder (ui m1) m2))
    by (repeat apply commit_settling; exact Hinv).
  pose proof (third_commit_quiet prev m) as Hquiet. cbv zeta in Hquiet.
  fold m1 m2 in Hquiet.
  unfold coherent. rewrite Hquiet. apply H3. rewrite Hquiet.
  unfold autoplayDepsChanged.
  now rewrite Bool.eqb_reflx, !Z.eqb_refl.
Qed.

Lemma dispatch_coherent (h : State -> State) (m : Machine) :
  coherent m -> coherent (dispatch encoder h m).
Proof.
  intro Hm. apply settle_coherent. intros _. exact Hm.
Qed.

Lemma mount_coherent (search : option string) (clock : Z) :
  coherent (mount encoder lz search clock).
Proof.
  apply settle_coherent. intros _. split.
  - reflexivity.
  - intros [Hplay _]. discriminate Hplay.
Qed.

Lemma react_coherent (ev : Event) (m : Machine) :
  coherent m -> coherent (react encoder ev m).
Proof.
  intro Hm.
  destruct ev as [e | index | | | | o | value | ms | ]; simpl;
    try (now apply dispatch_coherent).
  - destruct (rendered index (ui m)); [now apply dispatch_coherent|exact Hm].
  - exact Hm.
  - destruct (pending m) as [tm|] eqn:Hpend; [|exact Hm].
    destruct (due tm <=? now m); [|exact Hm].
    apply settle_coherent. cbn [ui pending]. intro Hquiet. exfalso.
    destruct Hm as [Hsched _]. unfold scheduledFor in Hsched.
    rewrite Hpend in Hsched.
    destruct (isPlaying (ui m) && (currentTokenIndex (ui m)
                                   <? arrayLength (tokens (ui m)))) eqn:Hrun;
      [|discriminate Hsched].
    destruct Hsched as [t0 Htm]. injection Htm as ->.
    apply andb_true_iff in Hrun as [_ Hlt]. apply Z.ltb_lt in Hlt.
    apply autoplayDeps_same in Hquiet as (_ & Hcur & _).
    unfold timerCallback in Hcur. simpl in Hcur. lia.
Qed.

(** X2.  In every state the component can reach, a timer is pending exactly
    when it is playing; the timer carries the current speed and the current
    number of tokens, and the cursor is then short of the end.  A stopped
    component has no timer, and no timer outlives the token sequence it was
    scheduled for. *)
Theorem reachable_coherent (m : Machine) :
  Reachable encoder lz m -> coherent m.
Proof.
  induction 1 as [search clock | ev m _ IH].
  - apply mount_coherent.
  - now apply react_coherent.
Qed.

(** ** Opening a shared link *)

Lemma settle_keeps (n : nat) (prev : State) (m : Machine) :
  markdown (ui (settle encoder n prev m)) = markdown (ui m)
  /\ playbackSpeed (ui (settle encoder n prev m)) = playbackSpeed (ui m)
  /\ now (settle encoder n prev m) = now m.
Proof.
  revert prev m. induction n as [|n IH]; intros prev m; simpl.
  - auto.
  - destruct (IH (ui m) (commit encoder prev m)) as (-> & -> & ->).
    apply commit_keeps.
Qed.

(** Only the URL effect decides which text the mounted component holds. *)
Lemma mount_markdown (search : option string) (clock : Z) :
  markdown (ui (mount encoder lz search clock)) =
  markdown (urlLoadEffect lz search initialState).
Proof.
  unfold mount.
  match goal with
  | |- markdown (ui (settle _ _ _ ?m0)) = _ =>
      destruct (settle_keeps 3 initialState m0) as (-> & _)
  end.
  cbn [ui].
  change (autoplayEffect initialState clock)
    with (@None Timer, fun s : State => s).
  cbn [snd]. apply tokenizeEffect_keeps.
Qed.

End Properties.

(** * Further properties of the component *)

Section Invariants.

Variable encoder : Tiktoken.
Variable lz : LzString.

(** ** What a commit can do to the state *)

Lemma tokenizeEffect_cases (cur s : State) :
  (markdown cur = "" /\ tokenizeEffect encoder cur s = s)
  \/ (exists newTokens,
        markdown cur <> ""
        /\ encode encoder (markdown cur) = Returned newTokens
        /\ tokenizeEffect encoder cur s
           = setCurrentTokenIndex 0 (setTokens newTokens s))
  \/ (markdown cur <> ""
      /\ encode encoder (markdown cur) = Thrown
      /\ tokenizeEffect encoder cur s = setTokens [] s).
Proof.
  unfold tokenizeEffect.
  destruct (truthy (markdown cur)) eqn:Ht.
  - apply truthy_true_iff in Ht.
    destruct (encode encoder (markdown cur)) as [newTokens|] eqn:Henc.
    + right; left. now exists newTokens.
    + right; right. auto.
  - left. split; [|reflexivity].
    unfold truthy in Ht. apply negb_false_iff in Ht.
    now apply String.eqb_eq.
Qed.

Lemma commit_ui_cases (prev : State) (m : Machine) :
  let queued := if tokenizeDepsChanged prev (ui m)
                then tokenizeEffect encoder (ui m) (ui m) else ui m in
  ui (commit encoder prev m) = queued
  \/ ui (commit encoder prev m) = setIsPlaying false queued.
Proof.
  unfold commit. cbn [ui].
  destruct (tokenizeDepsChanged prev (ui m));
    destruct (autoplayDepsChanged prev (ui m)); cbn [snd]; auto;
    destruct (autoplayEffect_cases (ui m) (now m))
      as [(_ & _ & ->) | [(_ & _ & ->) | (_ & ->)]]; cbn [snd]; auto.
Qed.

Lemma tokenizeEffect_bounds (cur s : State) :
  cursorInBounds encoder s ->
  cursorInBounds encoder (tokenizeEffect encoder cur s).
Proof.
  intros [Hlo Hhi].
  destruct (tokenizeEffect_cases cur s)
    as [(_ & ->) | [(newTokens & _ & _ & ->) | (_ & Henc & ->)]].
  - now split.
  - split; simpl; [lia|]. left. apply arrayLength_nonneg.
  - split; simpl; [exact Hlo|]. right. split; [reflexivity|].
    now exists (markdown cur).
Qed.

Lemma commit_bounds (prev : State) (m : Machine) :
  cursorInBounds encoder (ui m) ->
  cursorInBounds encoder (ui (commit encoder prev m)).
Proof.
  intro Hb.
  assert (Hq : cursorInBounds encoder
                 (if tokenizeDepsChanged prev (ui m)
                  then tokenizeEffect encoder (ui m) (ui m) else ui m)).
  { destruct (tokenizeDepsChanged prev (ui m)); [|exact Hb].
    now apply tokenizeEffect_bounds. }
  destruct (commit_ui_cases prev m) as [-> | ->]; exact Hq.
Qed.

Lemma settle_bounds (n : nat) (prev : State) (m : Machine) :
  cursorInBounds encoder (ui m) ->
  cursorInBounds encoder (ui (settle encoder n prev m)).
Proof.
  revert prev m. induction n as [|n IH]; intros prev m Hb; simpl.
  - exact Hb.
  - apply IH. now apply commit_bounds.
Qed.

(** A commit brings the tokens in line with the text, unless they were in
    line already and the text has not changed. *)
Lemma commit_inSync (prev : State) (m : Machine) :
  (markdown prev = markdown (ui m) -> inSync encoder (ui m)) ->
  inSync encoder (ui (commit encoder prev m)).
Proof.
  intros Hinv Hne.
  destruct (commit_keeps encoder prev m) as (Hmd & _).
  rewrite Hmd in Hne |- *.
  assert (Hq : tokens (if tokenizeDepsChanged prev (ui m)
                       then tokenizeEffect encoder (ui m) (ui m) else ui m)
               = tokenized encoder (markdown (ui m))).
  { unfold tokenizeDepsChanged.
    destruct (String.eqb (markdown prev) (markdown (ui m))) eqn:Heq; simpl.
    - apply String.eqb_eq in Heq. now apply Hinv.
    - unfold tokenized.
      destruct (tokenizeEffect_cases (ui m) (ui m))
        as [(Hempty & _) | [(newTokens & _ & Henc & ->) | (_ & Henc & ->)]];
        rewrite ?Henc; try reflexivity.
      contradiction. }
  destruct (commit_ui_cases prev m) as [-> | ->]; exact Hq.
Qed.

Lemma settle_inSync (n : nat) (prev : State) (m : Machine) :
  (markdown prev = markdown (ui m) -> inSync encoder (ui m)) ->
  inSync encoder (ui (settle encoder (S n) prev m)).
Proof.
  revert prev m. induction n as [|n IH]; intros prev m Hinv.
  - simpl. now apply commit_inSync.
  - change (settle encoder (S (S n)) prev m)
      with (settle encoder (S n) (ui m) (commit encoder prev m)).
    apply IH. intros _. now apply commit_inSync.
Qed.

Lemma dispatch_inSync (h : State -> State) (m : Machine) :
  tokens (h (ui m)) = tokens (ui m) ->
  inSync encoder (ui m) ->
  inSync encoder (ui (dispatch encoder h m)).
Proof.
  intros Htok Hsync. unfold dispatch. apply settle_inSync. cbn [ui].
  intros Hmd Hne. rewrite Htok, <- Hmd. apply Hsync. now rewrite Hmd.
Qed.

Lemma dispatch_bounds (h : State -> State) (m : Machine) :
  cursorInBounds encoder (h (ui m)) ->
  cursorInBounds encoder (ui (dispatch encoder h m)).
Proof. intro Hb. unfold dispatch. now apply settle_bounds. Qed.

Lemma dispatch_speed (h : State -> State) (m : Machine) :
  playbackSpeed (ui (dispatch encoder h m)) = playbackSpeed (h (ui m)).
Proof. unfold dispatch. apply settle_keeps. Qed.

(** ** What a handler can do to the state *)

Lemma cursorInBounds_move (s : State) (v : Z) :
  cursorInBounds encoder s ->
  0 <= v ->
  (currentTokenIndex s <= arrayLength (tokens s) ->
   v <= arrayLength (tokens s)) ->
  cursorInBounds encoder (setCurrentTokenIndex v s).
Proof.
  intros [Hlo [Hhi | Hfail]] Hv Hle; split; simpl; auto.
Qed.

Lemma handleKeyDown_keeps (e : KeyboardEvent) (s : State) :
  markdown (handleKeyDown e s) = markdown s
  /\ tokens (handleKeyDown e s) = tokens s
  /\ playbackSpeed (handleKeyDown e s) = playbackSpeed s
  /\ (cursorInBounds encoder s -> cursorInBounds encoder (handleKeyDown e s)).
Proof.
  pose proof (arrayLength_nonneg (tokens s)) as Hlen.
  unfold handleKeyDown.
  destruct (targetIsTextArea e); [auto|].
  destruct (String.eqb (key e) "ArrowLeft");
    [|destruct (String.eqb (key e) "ArrowRight");
      [|destruct (String.eqb (key e) " ")]];
    (split; [reflexivity|]); (split; [reflexivity|]);
    (split; [reflexivity|]); intro Hb.
  - apply (cursorInBounds_move s _ Hb); destruct Hb as [Hlo _]; lia.
  - apply (cursorInBounds_move s _ Hb); destruct Hb as [Hlo _]; lia.
  - exact Hb.
  - exact Hb.
Qed.

(** Every event either leaves the state alone or runs one handler, which
    keeps the token array, keeps the cursor in bounds, picks the speed among
    the offered ones and, unless it is the textarea's, keeps the text. *)
Lemma react_cases (ev : Event) (m : Machine) :
  coherent m ->
  cursorInBounds encoder (ui m) ->
  ui (react encoder ev m) = ui m
  \/ exists (h : State -> State) (p : option Timer),
       react encoder ev m
       = dispatch encoder h {| ui := ui m; pending := p; now := now m |}
       /\ tokens (h (ui m)) = tokens (ui m)
       /\ cursorInBounds encoder (h (ui m))
       /\ (playbackSpeed (h (ui m)) = playbackSpeed (ui m)
           \/ speedOffered (h (ui m)))
       /\ (isTextChange ev = false -> markdown (h (ui m)) = markdown (ui m)).
Proof.
  intros Hco Hb.
  pose proof (arrayLength_nonneg (tokens (ui m))) as Hlen.
  assert (Hlo : 0 <= currentTokenIndex (ui m)) by apply Hb.
  destruct ev as [e | index | | | | o | value | ms | ]; simpl.
  - right. exists (handleKeyDown e), (pending m).
    destruct (handleKeyDown_keeps e (ui m)) as (Hmd & Htok & Hsp & Hbd).
    refine (conj eq_refl (conj Htok (conj (Hbd Hb)
              (conj (or_introl Hsp) (fun _ => Hmd))))).
  - destruct (rendered index (ui m)) eqn:Hr; [|now left].
    right. exists (tokenOnClick index), (pending m).
    unfold rendered in Hr. apply andb_true_iff in Hr as [Hge Hlt].
    apply Z.leb_le in Hge. apply Z.ltb_lt in Hlt.
    refine (conj eq_refl (conj eq_refl (conj _
              (conj (or_introl eq_refl) (fun _ => eq_refl))))).
    apply (cursorInBounds_move (ui m) _ Hb); lia.
  - right. exists resetToStart, (pending m).
    refine (conj eq_refl (conj eq_refl (conj _
              (conj (or_introl eq_refl) (fun _ => eq_refl))))).
    apply (cursorInBounds_move (ui m) _ Hb); lia.
  - right. exists skipToEnd, (pending m).
    refine (conj eq_refl (conj eq_refl (conj _
              (conj (or_introl eq_refl) (fun _ => eq_refl))))).
    apply (cursorInBounds_move (ui m) _ Hb); lia.
  - right. exists togglePlayback, (pending m).
    exact (conj eq_refl (conj eq_refl (conj Hb
             (conj (or_introl eq_refl) (fun _ => eq_refl))))).
  - right. exists (speedOnChange o), (pending m).
    refine (conj eq_refl (conj eq_refl (conj Hb
              (conj (or_intror _) (fun _ => eq_refl))))).
    now exists o.
  - right. exists (textareaOnChange value), (pending m).
    refine (conj eq_refl (conj eq_refl (conj Hb
              (conj (or_introl eq_refl) _)))).
    discriminate.
  - now left.
  - destruct (pending m) as [tm|] eqn:Hpend; [|now left].
    destruct (due tm <=? now m); [|now left].
    right. exists (timerCallback (capturedLength tm)), None.
    destruct Hco as [Hsched _]. unfold scheduledFor in Hsched.
    rewrite Hpend in Hsched.
    destruct (isPlaying (ui m)
              && (currentTokenIndex (ui m) <? arrayLength (tokens (ui m))))
      eqn:Hrun; [|discriminate Hsched].
    destruct Hsched as [t0 Htm]. injection Htm as ->.
    apply andb_true_iff in Hrun as [_ Hlt]. apply Z.ltb_lt in Hlt.
    refine (conj eq_refl (conj eq_refl (conj _
              (conj (or_introl eq_refl) (fun _ => eq_refl))))).
    apply (cursorInBounds_move (ui m) _ Hb); simpl; lia.
Qed.

(** ** Mounting *)

Lemma urlLoadEffect_cases (search : option string) (s : State) :
  urlLoadEffect lz search s = s
  \/ exists text, text <> "" /\ urlLoadEffect lz search s = setMarkdown text s.
Proof.
  unfold urlLoadEffect.
  destruct search as [compressed|]; [|now left].
  destruct (truthy compressed); [|now left].
  destruct (decompressFromEncodedURIComponent lz compressed)
    as [[text|]|]; try (now left).
  destruct (truthy text) eqn:Ht; [|now left].
  right. exists text. split; [now apply truthy_true_iff|reflexivity].
Qed.

Lemma defaultMarkdown_not_empty : defaultMarkdown <> "".
Proof. discriminate. Qed.

(** The state after the first commit. *)
Lemma mount_first_commit (search : option string) (clock : Z) :
  mount encoder lz search clock =
    settle encoder 3 initialState
      {| ui := tokenizeEffect encoder initialState
                 (urlLoadEffect lz search initialState);
         pending := None;
         now := clock |}.
Proof. reflexivity. Qed.

Lemma mount_invariants (search : option string) (clock : Z) :
  let m := mount encoder lz search clock in
  cursorInBounds encoder (ui m)
  /\ inSync encoder (ui m)
  /\ playbackSpeed (ui m) = 100.
Proof.
  intro m. unfold m. rewrite mount_first_commit.
  set (loaded := urlLoadEffect lz search initialState).
  assert (Hloaded : tokens loaded = [] /\ currentTokenIndex loaded = 0
                    /\ playbackSpeed loaded = 100).
  { unfold loaded.
    destruct (urlLoadEffect_cases search initialState)
      as [-> | (text & _ & ->)]; auto. }
  destruct Hloaded as (Htok & Hcur & Hsp).
  split; [|split].
  - apply settle_bounds. cbn [ui]. apply tokenizeEffect_bounds.
    split; [lia|]. left. rewrite Hcur, Htok. discriminate.
  - apply settle_inSync. cbn [ui]. intros Hmd _. rewrite <- Hmd.
    destruct (tokenizeEffect_cases initialState loaded)
      as [(Hempty & _) | [(newTokens & _ & Henc & ->) | (_ & Henc & ->)]].
    + now destruct defaultMarkdown_not_empty.
    + unfold tokenized. now rewrite Henc.
    + unfold tokenized. now rewrite Henc.
  - match goal with
    | |- playbackSpeed (ui (settle _ _ _ ?m0)) = _ =>
        destruct (settle_keeps encoder 3 initialState m0) as (_ & -> & _)
    end.
    cbn [ui].
    destruct (tokenizeEffect_keeps encoder initialState loaded)
      as (_ & _ & ->).
    exact Hsp.
Qed.

(** ** Every reachable state *)

Lemma reachable_invariants (m : Machine) :
  Reachable encoder lz m ->
  coherent m
  /\ cursorInBounds encoder (ui m)
  /\ inSync encoder (ui m)
  /\ speedOffered (ui m).
Proof.
  induction 1 as [search clock | ev m _ (Hco & Hb & Hsync & Hsp)].
  - destruct (mount_invariants search clock) as (Hb & Hsync & Hsp).
    split; [apply mount_coherent|]. split; [exact Hb|].
    split; [exact Hsync|]. exists Normal. exact Hsp.
  - split; [now apply react_coherent|].
    destruct (react_cases ev m Hco Hb)
      as [-> | (h & p & -> & Htok & Hbd & Hspd & _)]; [auto|].
    split; [now apply dispatch_bounds|].
    split; [now apply dispatch_inSync|].
    unfold speedOffered. rewrite dispatch_speed. cbn [ui].
    destruct Hspd as [-> | Ho]; [exact Hsp | exact Ho].
Qed.

(** X3.  In every state the component can reach the cursor is at least 0,
    and it is at most [tokens.length] unless the token array is empty because
    the encoder threw on some text (the [catch] branch empties the array
    without resetting the cursor). *)
Theorem reachable_cursor_in_bounds (m : Machine) :
  Reachable encoder lz m ->
  0 <= currentTokenIndex (ui m)
  /\ (currentTokenIndex (ui m) <= arrayLength (tokens (ui m))
      \/ (tokens (ui m) = [] /\ exists text, encode encoder text = Thrown)).
Proof.
  intro Hreach. now destruct (reachable_invariants m Hreach) as (_ & Hb & _).
Qed.

(** X4.  In every state the component can reach, a non-empty text comes with
    the token array the tokenize effect computes for it: [encoder.encode] of
    the text, or the empty array when that throws.  No handler and no timer
    ever leaves the tokens of an older text under a newer non-empty text. *)
Theorem reachable_tokens_in_sync (m : Machine) :
  Reachable encoder lz m ->
  markdown (ui m) <> "" ->
  tokens (ui m) = tokenized encoder (markdown (ui m)).
Proof.
  intros Hreach Hne.
  destruct (reachable_invariants m Hreach) as (_ & _ & Hsync & _).
  now apply Hsync.
Qed.

(** X5.  In every state the component can reach, [playbackSpeed] is one of
    the three values the select offers. *)
Theorem reachable_speed_is_offered (m : Machine) :
  Reachable encoder lz m ->
  playbackSpeed (ui m) = 50
  \/ playbackSpeed (ui m) = 100
  \/ playbackSpeed (ui m) = 200.
Proof.
  intro Hreach.
  destruct (reachable_invariants m Hreach) as (_ & _ & _ & [o Ho]).
  rewrite Ho. destruct o; simpl; auto.
Qed.

Lemma dispatch_unedited_fields (h : State -> State) (m : Machine) :
  markdown (h (ui m)) = markdown (ui m) ->
  markdown (ui (dispatch encoder h m)) = markdown (ui m)
  /\ tokens (ui (dispatch encoder h m)) = tokens (h (ui m))
  /\ currentTokenIndex (ui (dispatch encoder h m))
     = currentTokenIndex (h (ui m)).
Proof.
  intro Hmd. unfold dispatch.
  destruct (settle_unedited encoder 3 (ui m)
              {| ui := h (ui m); pending := pending m; now := now m |}
              (eq_sym Hmd))
    as (-> & -> & -> & _).
  cbn [ui]. auto.
Qed.

(** X6.  After the skip-to-end button, the streamed output is the decoding
    of the whole encoding of the current text (the empty string if [decode]
    throws), in every reachable state whose text is non-empty and has at
    least one token. *)
Theorem skip_to_end_shows_decoded_text (m : Machine) :
  Reachable encoder lz m ->
  markdown (ui m) <> "" ->
  tokenized encoder (markdown (ui m)) <> [] ->
  getCurrentMarkdown encoder (ui (react encoder SkipClick m)) =
    match decode encoder (tokenized encoder (markdown (ui m))) with
    | Returned text => text
    | Thrown => ""
    end.
Proof.
  intros Hreach Hne Htok.
  destruct (reachable_invariants m Hreach) as (_ & _ & Hsync & _).
  specialize (Hsync Hne). rewrite <- Hsync in *.
  cbn [react].
  destruct (dispatch_unedited_fields skipToEnd m eq_refl) as (_ & Ht & Hc).
  unfold getCurrentMarkdown. rewrite Ht, Hc. simpl.
  destruct (arrayLength (tokens (ui m)) =? 0) eqn:Hz.
  - apply Z.eqb_eq, arrayLength_nil_iff in Hz. contradiction.
  - now rewrite sliceFromZero_all.
Qed.

(** X7.  Only the textarea changes the text: after any other event (keys,
    clicks, speed changes, passing time, timer ticks) the text and the token
    array are the ones from before. *)
Theorem only_text_change_edits_text (ev : Event) (m : Machine) :
  isTextChange ev = false ->
  markdown (ui (react encoder ev m)) = markdown (ui m)
  /\ tokens (ui (react encoder ev m)) = tokens (ui m).
Proof.
  intro Hev.
  destruct ev as [e | index | | | | o | value | ms | ]; cbn [react];
    try discriminate Hev; try (now split).
  - destruct (handleKeyDown_keeps e (ui m)) as (Hmd & Htok & _).
    destruct (dispatch_unedited_fields (handleKeyDown e) m Hmd)
      as (-> & -> & _). auto.
  - destruct (rendered index (ui m)); [|now split].
    destruct (dispatch_unedited_fields (tokenOnClick index) m eq_refl)
      as (-> & -> & _). auto.
  - destruct (dispatch_unedited_fields resetToStart m eq_refl)
      as (-> & -> & _). auto.
  - destruct (dispatch_unedited_fields skipToEnd m eq_refl)
      as (-> & -> & _). auto.
  - destruct (dispatch_unedited_fields togglePlayback m eq_refl)
      as (-> & -> & _). auto.
  - destruct (dispatch_unedited_fields (speedOnChange o) m eq_refl)
      as (-> & -> & _). auto.
  - destruct (pending m) as [tm|]; [|now split].
    destruct (due tm <=? now m); [|now split].
    destruct (dispatch_unedited_fields (timerCallback (capturedLength tm))
                {| ui := ui m; pending := None; now := now m |} eq_refl)
      as (-> & -> & _). auto.
Qed.

(** ** Mounting, again *)

Lemma commit_cursor_zero (prev : State) (m : Machine) :
  currentTokenIndex (ui m) = 0 ->
  currentTokenIndex (ui (commit encoder prev m)) = 0.
Proof.
  intro Hz.
  assert (Hq : currentTokenIndex
                 (if tokenizeDepsChanged prev (ui m)
                  then tokenizeEffect encoder (ui m) (ui m) else ui m) = 0).
  { destruct (tokenizeDepsChanged prev (ui m)); [|exact Hz].
    destruct (tokenizeEffect_cases (ui m) (ui m))
      as [(_ & ->) | [(newTokens & _ & _ & ->) | (_ & _ & ->)]]; auto. }
  destruct (commit_ui_cases prev m) as [-> | ->]; exact Hq.
Qed.

Lemma settle_cursor_zero (n : nat) (prev : State) (m : Machine) :
  currentTokenIndex (ui m) = 0 ->
  currentTokenIndex (ui (settle encoder n prev m)) = 0.
Proof.
  revert prev m. induction n as [|n IH]; intros prev m Hz; simpl.
  - exact Hz.
  - apply IH. now apply commit_cursor_zero.
Qed.

Lemma stopped_has_no_timer (m : Machine) :
  coherent m -> isPlaying (ui m) = false -> pending m = None.
Proof.
  intros [Hsched _] Hstop. unfold scheduledFor in Hsched.
  now rewrite Hstop in Hsched.
Qed.

(** X8.  Whatever the [md] parameter holds, the mounted page starts stopped,
    with the cursor at 0, no timer pending and the speed at 100 ms; its text
    is the default text or a non-empty text taken from the link, and its
    tokens are those of that text. *)
Theorem mount_starts_stopped_at_zero (search : option string) (clock : Z) :
  let m := mount encoder lz search clock in
  currentTokenIndex (ui m) = 0
  /\ isPlaying (ui m) = false
  /\ pending m = None
  /\ playbackSpeed (ui m) = 100
  /\ now m = clock
  /\ markdown (ui m) <> ""
  /\ tokens (ui m) = tokenized encoder (markdown (ui m)).
Proof.
  intro m.
  assert (Hstop : isPlaying (ui m) = false).
  { unfold m. rewrite mount_first_commit. apply settle_keeps_stopped.
    cbn [ui].
    destruct (tokenizeEffect_keeps encoder initialState
                (urlLoadEffect lz search initialState)) as (_ & -> & _).
    destruct (urlLoadEffect_cases search initialState)
      as [-> | (text & _ & ->)]; reflexivity. }
  assert (Hmd : markdown (ui m) <> "").
  { unfold m. rewrite mount_markdown.
    destruct (urlLoadEffect_cases search initialState)
      as [-> | (text & Hne & ->)]; [exact defaultMarkdown_not_empty|exact Hne]. }
  destruct (mount_invariants search clock) as (_ & Hsync & Hsp).
  fold m in Hsync, Hsp.
  split; [|split; [exact Hstop|split; [|split; [exact Hsp|split]]]].
  - unfold m. rewrite mount_first_commit. apply settle_cursor_zero. cbn [ui].
    destruct (tokenizeEffect_cases initialState
                (urlLoadEffect lz search initialState))
      as [(_ & ->) | [(newTokens & _ & _ & ->) | (_ & _ & ->)]];
      try reflexivity;
      destruct (urlLoadEffect_cases search initialState)
        as [-> | (text & _ & ->)]; reflexivity.
  - apply stopped_has_no_timer; [apply mount_coherent|exact Hstop].
  - unfold m. rewrite mount_first_commit. apply settle_keeps.
  - split; [exact Hmd|now apply Hsync].
Qed.

(** ** Failure of the encoder during playback *)

Lemma text_change_thrown_fields (m : Machine) (value : string) :
  value <> "" ->
  value <> markdown (ui m) ->
  encode encoder value = Thrown ->
  tokens (ui (react encoder (TextChange value) m)) = []
  /\ currentTokenIndex (ui (react encoder (TextChange value) m))
     = currentTokenIndex (ui m).
Proof.
  intros Hne Hdiff Henc.
  rewrite (text_change_first_commit encoder m value Hdiff).
  unfold tokenizeEffect. cbn [markdown setMarkdown].
  apply truthy_true_iff in Hne. rewrite Hne, Henc.
  set (m1 := {| ui := setTokens [] (setMarkdown value (ui m));
                pending := pending m; now := now m |}).
  destruct (settle_unedited encoder 2 (setMarkdown value (ui m)) m1 eq_refl)
    as (_ & -> & -> & _).
  auto.
Qed.

(** X9.  When the textarea receives a text on which the encoder throws, in
    any reachable state, playing or not, the component ends up stopped with
    no timer pending (and with no tokens). *)
Theorem encode_failure_stops_playback (m : Machine) (value : string) :
  Reachable encoder lz m ->
  value <> "" ->
  value <> markdown (ui m) ->
  encode encoder value = Thrown ->
  let m' := react encoder (TextChange value) m in
  tokens (ui m') = [] /\ isPlaying (ui m') = false /\ pending m' = None.
Proof.
  intros Hreach Hne Hdiff Henc m'.
  destruct (reachable_invariants m Hreach) as (Hco & [Hlo _] & _).
  destruct (text_change_thrown_fields m value Hne Hdiff Henc) as (Htok & Hcur).
  fold m' in Htok, Hcur.
  assert (Hco' : coherent m') by now apply react_coherent.
  assert (Hstop : isPlaying (ui m') = false).
  { destruct (isPlaying (ui m')) eqn:Hp; [|reflexivity].
    exfalso. apply (proj2 Hco'). split; [exact Hp|].
    rewrite Htok, Hcur. exact Hlo. }
  split; [exact Htok|]. split; [exact Hstop|].
  now apply stopped_has_no_timer.
Qed.

(** ** Keys and buttons *)

Lemma dispatch_same (h : State -> State) (m : Machine) :
  h (ui m) = ui m -> dispatch encoder h m = m.
Proof.
  intro Hh. unfold dispatch. rewrite Hh.
  replace {| ui := ui m; pending := pending m; now := now m |} with m
    by (now destruct m).
  apply settle_rest.
Qed.

(** X10.  A key pressed while the textarea has the focus, and any key other
    than the two arrows and the space bar, changes nothing: neither the
    state nor the pending timer. *)
Theorem other_keys_are_ignored (e : KeyboardEvent) (m : Machine) :
  targetIsTextArea e = true
  \/ (key e <> "ArrowLeft" /\ key e <> "ArrowRight" /\ key e <> " ") ->
  react encoder (KeyDown e) m = m.
Proof.
  intro Hcase. cbn [react]. apply dispatch_same. unfold handleKeyDown.
  destruct Hcase as [-> | (Hl & Hr & Hs)]; [reflexivity|].
  apply String.eqb_neq in Hl, Hr, Hs. rewrite Hl, Hr, Hs.
  now destruct (targetIsTextArea e).
Qed.

Lemma toggle_while_playing (m : Machine) :
  isPlaying (ui m) = true ->
  dispatch encoder togglePlayback m =
    {| ui := setIsPlaying false (ui m); pending := None; now := now m |}.
Proof.
  intro Hplay.
  rewrite dispatch_unedited_stopped; unfold togglePlayback; rewrite ?Hplay;
    try reflexivity.
  unfold autoplayDepsChanged. simpl. now rewrite Hplay.
Qed.

(** X11.  Pausing cancels the pending tick: the play/pause button, and
    equally the space bar pressed outside the textarea, turn a playing
    component into a stopped one with no timer, the cursor where it was. *)
Theorem pause_cancels_pending_tick (m : Machine) :
  isPlaying (ui m) = true ->
  let paused :=
    {| ui := setIsPlaying false (ui m); pending := None; now := now m |} in
  react encoder PlayPauseClick m = paused
  /\ react encoder (KeyDown {| targetIsTextArea := false; key := " " |}) m
     = paused.
Proof.
  intros Hplay paused. split; cbn [react].
  - now apply toggle_while_playing.
  - change (handleKeyDown {| targetIsTextArea := false; key := " " |})
      with togglePlayback.
    now apply toggle_while_playing.
Qed.

(** X12.  Play followed by pause is the identity on a stopped component
    whose cursor is before the end: the state and the (absent) timer are
    restored. *)
Theorem play_then_pause_restores (m : Machine) :
  isPlaying (ui m) = false ->
  pending m = None ->
  currentTokenIndex (ui m) < arrayLength (tokens (ui m)) ->
  react encoder PlayPauseClick (react encoder PlayPauseClick m) = m.
Proof.
  intros Hstop Hnone Hlt.
  rewrite (play_starts encoder m Hstop Hlt). cbn [react].
  rewrite toggle_while_playing by reflexivity.
  destruct m as [[md tk c pl sp] p n]. simpl in *. now subst.
Qed.

(** X13.  The arrow keys undo each other inside the range:
    right-then-left returns to a cursor in [[0, tokens.length)],
    left-then-right returns to a cursor in [(0, tokens.length]]; at the two
    ends they stay put (left at 0, right at [tokens.length]). *)
Theorem arrow_keys_undo_each_other (m : Machine) :
  let left := KeyDown {| targetIsTextArea := false; key := "ArrowLeft" |} in
  let right := KeyDown {| targetIsTextArea := false; key := "ArrowRight" |} in
  let c := currentTokenIndex (ui m) in
  let len := arrayLength (tokens (ui m)) in
  (0 <= c < len ->
   currentTokenIndex (ui (run encoder [right; left] m)) = c)
  /\ (0 < c <= len ->
      currentTokenIndex (ui (run encoder [left; right] m)) = c)
  /\ (c = 0 -> currentTokenIndex (ui (react encoder left m)) = 0)
  /\ (c = len -> currentTokenIndex (ui (react encoder right m)) = len).
Proof.
  intros left right c len.
  assert (Hleft : forall m0 : Machine,
             currentTokenIndex (ui (react encoder left m0))
             = Z.max 0 (currentTokenIndex (ui m0) - 1)
             /\ tokens (ui (react encoder left m0)) = tokens (ui m0)).
  { intro m0. unfold left. cbn [react].
    destruct (dispatch_unedited_fields (handleKeyDown
                {| targetIsTextArea := false; key := "ArrowLeft" |}) m0 eq_refl)
      as (_ & -> & ->). auto. }
  assert (Hright : forall m0 : Machine,
             currentTokenIndex (ui (react encoder right m0))
             = Z.min (currentTokenIndex (ui m0) + 1)
                 (arrayLength (tokens (ui m0)))
             /\ tokens (ui (react encoder right m0)) = tokens (ui m0)).
  { intro m0. unfold right. cbn [react].
    destruct (dispatch_unedited_fields (handleKeyDown
                {| targetIsTextArea := false; key := "ArrowRight" |}) m0 eq_refl)
      as (_ & -> & ->). auto. }
  unfold run. repeat split.
  - intro Hc. destruct (Hleft (react encoder right m)) as [-> _].
    destruct (Hright m) as [-> _]. fold c len. lia.
  - intro Hc. destruct (Hright (react encoder left m)) as [-> _].
    destruct (Hleft m) as [-> ->]. fold c len. lia.
  - intro Hc. destruct (Hleft m) as [-> _]. fold c. lia.
  - intro Hc. destruct (Hright m) as [-> _]. fold c len. lia.
Qed.

(** X14.  With an empty token array (no text tokenized, or the encoder
    threw), the right arrow and both skip buttons put the cursor at 0
    whatever it was, while the left arrow only lowers it by one. *)
Theorem empty_tokens_navigation (m : Machine) :
  tokens (ui m) = [] ->
  0 <= currentTokenIndex (ui m) ->
  let left := KeyDown {| targetIsTextArea := false; key := "ArrowLeft" |} in
  let right := KeyDown {| targetIsTextArea := false; key := "ArrowRight" |} in
  currentTokenIndex (ui (react encoder right m)) = 0
  /\ currentTokenIndex (ui (react encoder SkipClick m)) = 0
  /\ currentTokenIndex (ui (react encoder ResetClick m)) = 0
  /\ currentTokenIndex (ui (react encoder left m))
     = Z.max 0 (currentTokenIndex (ui m) - 1).
Proof.
  intros Htok Hlo left right. unfold left, right. cbn [react].
  destruct (dispatch_unedited_fields (handleKeyDown
              {| targetIsTextArea := false; key := "ArrowRight" |}) m eq_refl)
    as (_ & _ & ->).
  destruct (dispatch_unedited_fields (handleKeyDown
              {| targetIsTextArea := false; key := "ArrowLeft" |}) m eq_refl)
    as (_ & _ & ->).
  destruct (dispatch_unedited_fields skipToEnd m eq_refl) as (_ & _ & ->).
  destruct (dispatch_unedited_fields resetToStart m eq_refl) as (_ & _ & ->).
  simpl. rewrite Htok. change (arrayLength (@nil Z)) with 0.
  repeat split. lia.
Qed.

(** X15.  A click on the span of token [index] puts the cursor just behind
    that token: a token is then highlighted exactly when its index is at most
    [index], and the streamed output is the decoding of the first
    [index + 1] tokens (the empty string if [decode] throws). *)
Theorem token_click_reveals_through_token (index : Z) (m : Machine) :
  rendered index (ui m) = true ->
  let m' := react encoder (TokenClick index) m in
  currentTokenIndex (ui m') = index + 1
  /\ tokens (ui m') = tokens (ui m)
  /\ (forall j : Z, (j <? currentTokenIndex (ui m')) = (j <=? index))
  /\ getCurrentMarkdown encoder (ui m') =
       match decode encoder (firstn (S (Z.to_nat index)) (tokens (ui m))) with
       | Returned text => text
       | Thrown => ""
       end.
Proof.
  intros Hr m'. unfold m'. cbn [react]. rewrite Hr.
  destruct (dispatch_unedited_fields (tokenOnClick index) m eq_refl)
    as (_ & Ht & Hc).
  cbn [tokenOnClick setIsPlaying setCurrentTokenIndex tokens
       currentTokenIndex] in Ht, Hc.
  unfold rendered in Hr. apply andb_true_iff in Hr as [Hlo Hhi].
  apply Z.leb_le in Hlo. apply Z.ltb_lt in Hhi. unfold arrayLength in Hhi.
  split; [exact Hc|]. split; [exact Ht|]. split.
  - intro j. rewrite Hc.
    destruct (j <=? index) eqn:Hj.
    + apply Z.leb_le in Hj. apply Z.ltb_lt. lia.
    + apply Z.leb_gt in Hj. apply Z.ltb_ge. lia.
  - rewrite <- Ht.
    apply getCurrentMarkdown_prefix.
    + rewrite Ht. intro Hnil. rewrite Hnil in Hhi. simpl in Hhi. lia.
    + rewrite Hc. lia.
    + rewrite Ht. lia.
Qed.

(** ** The pace of auto-play *)

(** X16.  Ticks follow one another at the chosen speed: when play is pressed
    at time [t] and every timer fires as soon as it is due, the [j]-th tick
    happens at [t + j * playbackSpeed]. *)
Theorem ticks_are_one_speed_apart (m : Machine) (j : nat) :
  isPlaying (ui m) = false ->
  0 <= playbackSpeed (ui m) ->
  currentTokenIndex (ui m) + Z.of_nat j <= arrayLength (tokens (ui m)) ->
  currentTokenIndex (ui m) < arrayLength (tokens (ui m)) ->
  now (ticks encoder j (react encoder PlayPauseClick m))
  = now m + Z.of_nat j * playbackSpeed (ui m).
Proof.
  intros Hstop Hsp Hj Hlt. induction j as [|j IH].
  - rewrite ticks_0, play_starts by assumption. simpl. lia.
  - specialize (IH ltac:(lia)).
    destruct (ticks_playingFrom encoder m j Hstop ltac:(lia) Hlt)
      as (_ & Htok & Hspd & Hcur & Hrun).
    assert (Hshort : (currentTokenIndex (ui m) + Z.of_nat j
                      <? arrayLength (tokens (ui m))) = true)
      by (apply Z.ltb_lt; lia).
    rewrite Hshort in Hrun. destruct Hrun as [Hplay Hpend].
    rewrite ticks_S.
    set (mj := ticks encoder j (react encoder PlayPauseClick m)) in *.
    rewrite (awaitTick_playing encoder mj _ Hpend)
      by (simpl; try congruence; rewrite Htok, Hcur; lia).
    cbv zeta.
    destruct (currentTokenIndex (ui mj) + 1 <? arrayLength (tokens (ui mj)));
      cbn [now]; unfold due; cbn [scheduledAt delay]; lia.
Qed.

(** ** The token visualization *)

Lemma includesChar_append (c : ascii) (a b : string) :
  includesChar c (String.append a b) = includesChar c a || includesChar c b.
Proof.
  induction a as [|x a IH]; simpl; [reflexivity|].
  now rewrite IH, orb_assoc.
Qed.

Lemma replaceAll_removes (c : ascii) (by_ text : string) :
  includesChar c by_ = false ->
  includesChar c (replaceAll c by_ text) = false.
Proof.
  intro Hby. induction text as [|x text IH]; simpl; [reflexivity|].
  destruct (Ascii.eqb x c) eqn:Hx.
  - now rewrite includesChar_append, Hby, IH.
  - simpl. now rewrite Hx, IH.
Qed.

Lemma replaceAll_keeps_absent (c d : ascii) (by_ text : string) :
  includesChar c by_ = false ->
  includesChar c text = false ->
  includesChar c (replaceAll d by_ text) = false.
Proof.
  intro Hby. induction text as [|x text IH]; simpl; [reflexivity|].
  intro Habs. apply orb_false_iff in Habs as [Hx Hrest].
  destruct (Ascii.eqb x d).
  - now rewrite includesChar_append, Hby, IH.
  - simpl. now rewrite Hx, IH.
Qed.

Lemma orElse_cases (s fallback : string) :
  (s <> "" /\ orElse s fallback = s) \/ (s = "" /\ orElse s fallback = fallback).
Proof.
  unfold orElse. destruct (truthy s) eqn:Ht.
  - left. split; [now apply truthy_true_iff|reflexivity].
  - right. split; [|reflexivity].
    unfold truthy in Ht. apply negb_false_iff in Ht. now apply String.eqb_eq.
Qed.

Lemma label_is_printable (text : string) :
  let label :=
    orElse (replaceAll newlineChar newlineMark
              (replaceAll tabChar tabMark text)) emptyMark in
  label <> ""
  /\ includesChar tabChar label = false
  /\ includesChar newlineChar label = false.
Proof.
  intro label. unfold label.
  destruct (orElse_cases
              (replaceAll newlineChar newlineMark
                 (replaceAll tabChar tabMark text)) emptyMark)
    as [(Hne & ->) | (_ & ->)].
  - split; [exact Hne|]. split.
    + apply replaceAll_keeps_absent; [reflexivity|].
      now apply replaceAll_removes.
    + now apply replaceAll_removes.
  - split; [discriminate|]. split; reflexivity.
Qed.

Lemma renderSpans_cons (s : State) (index token : Z) (rest : list Z)
      (spans : list TokenSpan) :
  renderSpans encoder s index (token :: rest) = Returned spans ->
  exists decoded tail,
    decode encoder [token] = Returned decoded
    /\ tokenSpan encoder s token index
       = Returned
           {| spanIndex := index;
              isActive := index <? currentTokenIndex s;
              tokenText := orElse decoded "";
              isNewline := includesChar newlineChar (orElse decoded "");
              spanLabel :=
                orElse
                  (replaceAll newlineChar newlineMark
                     (replaceAll tabChar tabMark (orElse decoded "")))
                  emptyMark |}
    /\ renderSpans encoder s (index + 1) rest = Returned tail
    /\ spans =
         {| spanIndex := index;
            isActive := index <? currentTokenIndex s;
            tokenText := orElse decoded "";
            isNewline := includesChar newlineChar (orElse decoded "");
            spanLabel :=
              orElse
                (replaceAll newlineChar newlineMark
                   (replaceAll tabChar tabMark (orElse decoded "")))
                emptyMark |} :: tail.
Proof.
  cbn [renderSpans]. unfold tokenSpan.
  destruct (decode encoder [token]) as [decoded|]; [|discriminate].
  destruct (renderSpans encoder s (index + 1) rest) as [tail|];
    [|discriminate].
  intro H. injection H as <-. exists decoded, tail. auto.
Qed.

Lemma renderSpans_spans (s : State) (toks : list Z) :
  forall (index : Z) (spans : list TokenSpan),
    renderSpans encoder s index toks = Returned spans ->
    List.length spans = List.length toks
    /\ forall (k : nat) (span : TokenSpan),
         nth_error spans k = Some span ->
         spanIndex span = index + Z.of_nat k
         /\ isActive span = (index + Z.of_nat k <? currentTokenIndex s)
         /\ (exists token,
               nth_error toks k = Some token
               /\ decode encoder [token] = Returned (tokenText span))
         /\ spanLabel span <> ""
         /\ includesChar tabChar (spanLabel span) = false
         /\ includesChar newlineChar (spanLabel span) = false.
Proof.
  induction toks as [|token rest IH]; intros index spans Hr.
  - injection Hr as <-. split; [reflexivity|].
    intros [|k] span Hk; discriminate Hk.
  - destruct (renderSpans_cons s index token rest spans Hr)
      as (decoded & tail & Hdec & _ & Htail & ->).
    destruct (IH (index + 1) tail Htail) as (Hlen & Hnth).
    split; [simpl; now rewrite Hlen|].
    intros [|k] span Hk.
    + injection Hk as <-. cbn [spanIndex isActive tokenText spanLabel].
      rewrite Z.add_0_r.
      split; [reflexivity|]. split; [reflexivity|]. split.
      * exists token. split; [reflexivity|].
        destruct (orElse_cases decoded "") as [(_ & ->) | (-> & ->)];
          exact Hdec.
      * apply label_is_printable.
    + destruct (Hnth k span Hk) as (Hi & Ha & Ht & Hl).
      replace (index + Z.of_nat (S k)) with (index + 1 + Z.of_nat k) by lia.
      auto.
Qed.

(** X17.  When the token list renders, it shows one span per token, in
    order: the [k]-th span carries index [k], is highlighted exactly when
    [k < currentTokenIndex], holds the decoding of the [k]-th token alone,
    and its label is never empty and contains no raw tab or newline. *)
Theorem visualization_shows_every_token (s : State) (spans : list TokenSpan) :
  tokenVisualization encoder s = Returned spans ->
  List.length spans = List.length (tokens s)
  /\ forall (k : nat) (span : TokenSpan),
       nth_error spans k = Some span ->
       spanIndex span = Z.of_nat k
       /\ isActive span = (Z.of_nat k <? currentTokenIndex s)
       /\ (exists token,
             nth_error (tokens s) k = Some token
             /\ decode encoder [token] = Returned (tokenText span))
       /\ spanLabel span <> ""
       /\ includesChar tabChar (spanLabel span) = false
       /\ includesChar newlineChar (spanLabel span) = false.
Proof.
  intro Hr. exact (renderSpans_spans s (tokens s) 0 spans Hr).
Qed.

Lemma renderSpans_active (s : State) (toks : list Z) :
  forall (index : Z) (spans : list TokenSpan),
    renderSpans encoder s index toks = Returned spans ->
    arrayLength (filter isActive spans)
    = Z.max 0 (Z.min (currentTokenIndex s - index) (arrayLength toks)).
Proof.
  induction toks as [|token rest IH]; intros index spans Hr.
  - injection Hr as <-. unfold arrayLength. simpl. lia.
  - destruct (renderSpans_cons s index token rest spans Hr)
      as (decoded & tail & _ & _ & Htail & ->).
    specialize (IH (index + 1) tail Htail).
    cbn [filter isActive].
    destruct (index <? currentTokenIndex s) eqn:Hact.
    + apply Z.ltb_lt in Hact. unfold arrayLength in *.
      cbn [Datatypes.length]. lia.
    + apply Z.ltb_ge in Hact. unfold arrayLength in *.
      cbn [Datatypes.length]. lia.
Qed.

(** X18.  The number of highlighted spans is the cursor, capped to
    [[0, tokens.length]]. *)
Theorem visualization_highlights_cursor_many
  (s : State) (spans : list TokenSpan) :
  tokenVisualization encoder s = Returned spans ->
  arrayLength (filter isActive spans)
  = Z.max 0 (Z.min (currentTokenIndex s) (arrayLength (tokens s))).
Proof.
  intro Hr. rewrite (renderSpans_active s (tokens s) 0 spans Hr).
  now rewrite Z.sub_0_r.
Qed.

Lemma renderSpans_thrown (s : State) (toks : list Z) :
  forall index : Z,
    renderSpans encoder s index toks = Thrown
    <-> exists token, In token toks /\ decode encoder [token] = Thrown.
Proof.
  induction toks as [|token rest IH]; intro index; cbn [renderSpans].
  - split; [discriminate|]. intros (token & [] & _).
  - unfold tokenSpan.
    destruct (decode encoder [token]) as [decoded|] eqn:Hdec.
    + destruct (renderSpans encoder s (index + 1) rest) as [tail|] eqn:Hrest.
      * split; [discriminate|].
        intros (bad & [<- | Hin] & Hbad); [congruence|].
        assert (Hex : exists t, In t rest /\ decode encoder [t] = Thrown)
          by (now exists bad).
        apply (IH (index + 1)) in Hex. congruence.
      * split; [|reflexivity]. intros _.
        destruct (proj1 (IH (index + 1)) Hrest) as (bad & Hin & Hbad).
        exists bad. split; [now right|exact Hbad].
    + split; [|reflexivity]. intros _. exists token. split; [now left|exact Hdec].
Qed.

(** X19.  [encoder.decode([token])] is called outside any [try] while the
    token list is rendered: the rendering throws exactly when [decode]
    throws on one of the tokens taken alone; otherwise it returns its
    spans. *)
Theorem visualization_throws_iff_a_token_does (s : State) :
  tokenVisualization encoder s = Thrown
  <-> exists token, In token (tokens s) /\ decode encoder [token] = Thrown.
Proof. apply renderSpans_thrown. Qed.

(** ** A cursor left behind by a failed encoding *)

(** C3, what the code does.  Over an empty token array (what the [catch]
    branch of the tokenize effect leaves) with the cursor still at 2 or more,
    the left arrow stores [Math.max(0, cursor - 1)]: the cursor goes down by
    one and stays above [tokens.length], which is 0. *)
Theorem step_back_leaves_stale_cursor_out_of_range (m : Machine) :
  tokens (ui m) = [] ->
  2 <= currentTokenIndex (ui m) ->
  let left := KeyDown {| targetIsTextArea := false; key := "ArrowLeft" |} in
  let m' := react encoder left m in
  tokens (ui m') = []
  /\ currentTokenIndex (ui m') = currentTokenIndex (ui m) - 1
  /\ arrayLength (tokens (ui m')) < currentTokenIndex (ui m').
Proof.
  intros Htok Hc left m'. unfold m', left. cbn [react].
  destruct (dispatch_unedited_fields (handleKeyDown
              {| targetIsTextArea := false; key := "ArrowLeft" |}) m eq_refl)
    as (_ & -> & ->).
  simpl. rewrite Htok. change (arrayLength (@nil Z)) with 0.
  split; [reflexivity|]. split; lia.
Qed.

(** ** The text of the mounted page *)

(** X21.  When the [md] parameter is absent or empty, or decompressing it
    throws, returns [null] or returns the empty string, the mounted page
    holds the default text and its tokens.  When decompressing a non-empty
    parameter returns a non-empty text, the mounted page holds that text and
    its tokens. *)
Theorem link_text_is_restored_or_default_kept
  (search : option string) (clock : Z) :
  let m := mount encoder lz search clock in
  (forall token text : string,
     search = Some token ->
     token <> "" ->
     text <> "" ->
     decompressFromEncodedURIComponent lz token = Returned (Some text) ->
     markdown (ui m) = text /\ tokens (ui m) = tokenized encoder text)
  /\ (search = None
      \/ search = Some ""
      \/ (exists token,
            search = Some token
            /\ (decompressFromEncodedURIComponent lz token = Thrown
                \/ decompressFromEncodedURIComponent lz token = Returned None
                \/ decompressFromEncodedURIComponent lz token
                   = Returned (Some ""))) ->
      markdown (ui m) = defaultMarkdown
      /\ tokens (ui m) = tokenized encoder defaultMarkdown).
Proof.
  intro m.
  destruct (mount_invariants search clock) as (_ & Hsync & _).
  fold m in Hsync.
  assert (Hmd : markdown (ui m)
                = markdown (urlLoadEffect lz search initialState))
    by apply mount_markdown.
  assert (Hboth : forall text,
             text <> "" ->
             markdown (urlLoadEffect lz search initialState) = text ->
             markdown (ui m) = text /\ tokens (ui m) = tokenized encoder text).
  { intros text Hne Hurl. rewrite Hurl in Hmd. split; [exact Hmd|].
    rewrite <- Hmd. apply Hsync. now rewrite Hmd. }
  split.
  - intros token text -> Htoken Htext Hdec. apply Hboth; [exact Htext|].
    unfold urlLoadEffect.
    apply truthy_true_iff in Htoken. apply truthy_true_iff in Htext.
    now rewrite Htoken, Hdec, Htext.
  - intro Hfail. apply Hboth; [exact defaultMarkdown_not_empty|].
    unfold urlLoadEffect.
    destruct Hfail as [-> | [-> | (token & -> & Hdec)]]; try reflexivity.
    destruct (truthy token); [|reflexivity].
    destruct Hdec as [-> | [-> | ->]]; reflexivity.
Qed.

End Invariants.

(** * The component at work on concrete inputs *)

Import Sample.

(** Three tokens, cursor at 0, stopped. *)
Example abc_loaded :
  let m := play [TextChange "abc"] fresh in
  tokens (ui m) = [97; 98; 99]
  /\ currentTokenIndex (ui m) = 0
  /\ isPlaying (ui m) = false
  /\ pending m = None.
Proof. vm_compute. auto. Qed.

(** Stepping through ["a b c"] shows its prefixes. *)
Example prefixes_of_a_b_c :
  let m := play [TextChange "a b c"] fresh in
  let key_right := KeyDown {| targetIsTextArea := false; key := "ArrowRight" |} in
  getCurrentMarkdown byteTiktoken (ui m) = ""
  /\ getCurrentMarkdown byteTiktoken (ui (play [key_right] m)) = "a"
  /\ getCurrentMarkdown byteTiktoken (ui (play [SkipClick] m)) = "a b c".
Proof. vm_compute. auto. Qed.

Lemma manual_navigation_keeps_cursor_in_range_witness :
  let m := play [TextChange "abc"] fresh in
  manualNavigation (TokenClick 2) m = true
  /\ 0 <= currentTokenIndex (ui m) <= arrayLength (tokens (ui m))
  /\ tokens (ui (react byteTiktoken (TokenClick 2) m)) = tokens (ui m)
  /\ 0 <= currentTokenIndex (ui (react byteTiktoken (TokenClick 2) m))
       <= arrayLength (tokens (ui (react byteTiktoken (TokenClick 2) m))).
Proof.
  intro m.
  assert (Hnav : manualNavigation (TokenClick 2) m = true) by reflexivity.
  assert (Hin : 0 <= currentTokenIndex (ui m) <= arrayLength (tokens (ui m)))
    by (vm_compute; split; discriminate).
  split; [exact Hnav|]. split; [exact Hin|].
  exact (manual_navigation_keeps_cursor_in_range byteTiktoken
           (TokenClick 2) m Hnav Hin).
Defined.

Lemma manual_navigation_stops_autoplay_witness :
  let m := play [TextChange "abc"; PlayPauseClick] fresh in
  let left := KeyDown {| targetIsTextArea := false; key := "ArrowLeft" |} in
  isPlaying (ui m) = true
  /\ manualNavigation left m = true
  /\ isPlaying (ui (react byteTiktoken left m)) = false.
Proof.
  intros m left.
  assert (Hnav : manualNavigation left m = true) by reflexivity.
  split; [reflexivity|]. split; [exact Hnav|].
  exact (manual_navigation_stops_autoplay byteTiktoken left m Hnav).
Defined.

(** An encoder whose [decode] would answer something for any input. *)
Lemma empty_tokens_render_empty_witness :
  let talkative :=
    {| encode := fun _ => Thrown; decode := fun _ => Returned "decoded" |} in
  let stale :=
    {| markdown := "<|endoftext|>"; tokens := []; currentTokenIndex := 3;
       isPlaying := false; playbackSpeed := 100 |} in
  arrayLength (tokens stale) = 0
  /\ getCurrentMarkdown talkative stale = "".
Proof.
  intros talkative stale.
  assert (Hlen : arrayLength (tokens stale) = 0) by reflexivity.
  split; [exact Hlen|].
  exact (empty_tokens_render_empty talkative stale Hlen).
Defined.

Lemma autoplay_runs_to_the_end_and_stops_witness :
  let m := play [TextChange "abc"] fresh in
  let started := react byteTiktoken PlayPauseClick m in
  let done := play [SkipClick] m in
  (isPlaying (ui m) = false /\ pending m = None
   /\ currentTokenIndex (ui m) < arrayLength (tokens (ui m)))
  /\ (currentTokenIndex (ui (ticks byteTiktoken 2 started)) = 2
      /\ isPlaying (ui (ticks byteTiktoken 2 started)) = true)
  /\ (currentTokenIndex (ui (ticks byteTiktoken 3 started)) = 3
      /\ isPlaying (ui (ticks byteTiktoken 3 started)) = false
      /\ pending (ticks byteTiktoken 3 started) = None)
  /\ (isPlaying (ui done) = false /\ pending done = None
      /\ arrayLength (tokens (ui done)) <= currentTokenIndex (ui done)
      /\ react byteTiktoken PlayPauseClick done = done).
Proof.
  intros m started done.
  assert (Hstop : isPlaying (ui m) = false) by reflexivity.
  assert (Hnone : pending m = None) by reflexivity.
  assert (Hlt : currentTokenIndex (ui m) < arrayLength (tokens (ui m)))
    by reflexivity.
  assert (Hstop' : isPlaying (ui done) = false) by reflexivity.
  assert (Hnone' : pending done = None) by reflexivity.
  assert (Hge : arrayLength (tokens (ui done)) <= currentTokenIndex (ui done))
    by (vm_compute; discriminate).
  destruct (autoplay_runs_to_the_end_and_stops byteTiktoken m Hstop Hnone)
    as [_ Hrun].
  destruct (autoplay_runs_to_the_end_and_stops byteTiktoken done Hstop' Hnone')
    as [Hnoop _].
  split; [auto|]. split; [|split].
  - destruct (Hrun Hlt 2%nat ltac:(vm_compute; discriminate))
      as (_ & Hcur & _ & Hplay & _).
    split; [exact Hcur|]. now apply Hplay.
  - destruct (Hrun Hlt 3%nat ltac:(vm_compute; discriminate))
      as (_ & Hcur & _ & _ & Hend).
    split; [exact Hcur|].
    destruct (Hend eq_refl) as (Hplay & Hpend & _). auto.
  - split; [exact Hstop'|]. split; [exact Hnone'|]. split; [exact Hge|].
    exact (Hnoop Hge).
Defined.

(** Counterexample to C6 as stated.  One tick into playing ["abc"]: typing
    ["hello"] leaves the component playing, and clearing the textarea leaves
    the three tokens, the cursor at 1 and playback untouched, although the
    encoding of the empty string is the empty sequence. *)
Lemma text_change_neither_stops_nor_handles_empty_text :
  let mid := awaitTick byteTiktoken
               (play [TextChange "abc"; PlayPauseClick] fresh) in
  (currentTokenIndex (ui mid) = 1 /\ isPlaying (ui mid) = true)
  /\ (let m' := react byteTiktoken (TextChange "hello") mid in
      tokens (ui m') = [104; 101; 108; 108; 111]
      /\ currentTokenIndex (ui m') = 0
      /\ isPlaying (ui m') = true)
  /\ (let m' := react byteTiktoken (TextChange "") mid in
      markdown (ui m') = ""
      /\ encode byteTiktoken "" = Returned []
      /\ tokens (ui m') = [97; 98; 99]
      /\ currentTokenIndex (ui m') = 1
      /\ isPlaying (ui m') = true).
Proof. vm_compute. repeat split. Qed.

Lemma text_change_reencodes_nonempty_text_witness :
  let mid := awaitTick byteTiktoken
               (play [TextChange "abc"; PlayPauseClick] fresh) in
  let m' := react byteTiktoken (TextChange "hello") mid in
  ("hello" <> "" /\ "hello" <> markdown (ui mid)
   /\ encode byteTiktoken "hello" = Returned [104; 101; 108; 108; 111])
  /\ markdown (ui m') = "hello"
  /\ tokens (ui m') = [104; 101; 108; 108; 111]
  /\ currentTokenIndex (ui m') = 0
  /\ isPlaying (ui m') = isPlaying (ui mid).
Proof.
  intros mid m'.
  assert (Hne : "hello" <> "") by discriminate.
  assert (Hdiff : "hello" <> markdown (ui mid)) by (vm_compute; discriminate).
  assert (Henc : encode byteTiktoken "hello"
                 = Returned [104; 101; 108; 108; 111]) by reflexivity.
  split; [auto|].
  destruct (text_change_reencodes_nonempty_text byteTiktoken mid)
    as [Hedit _].
  destruct (Hedit "hello" [104; 101; 108; 108; 111] Hne Hdiff Henc)
    as (Hmd & Htok & Hcur & Hplay).
  split; [exact Hmd|]. split; [exact Htok|]. split; [exact Hcur|].
  apply Hplay. discriminate.
Defined.

Lemma encode_failure_empties_tokens_but_keeps_cursor_witness :
  let m := play [TextChange "abc"; SkipClick] fresh in
  let m' := react byteTiktoken (TextChange "<|endoftext|>") m in
  (currentTokenIndex (ui m) = 3
   /\ "<|endoftext|>" <> "" /\ "<|endoftext|>" <> markdown (ui m)
   /\ encode byteTiktoken "<|endoftext|>" = Thrown)
  /\ markdown (ui m') = "<|endoftext|>"
  /\ tokens (ui m') = []
  /\ currentTokenIndex (ui m') = 3
  /\ getCurrentMarkdown byteTiktoken (ui m') = "".
Proof.
  intros m m'.
  assert (Hne : "<|endoftext|>" <> "") by discriminate.
  assert (Hdiff : "<|endoftext|>" <> markdown (ui m))
    by (vm_compute; discriminate).
  assert (Henc : encode byteTiktoken "<|endoftext|>" = Thrown) by reflexivity.
  split; [repeat split; auto|].
  exact (encode_failure_empties_tokens_but_keeps_cursor byteTiktoken m
           "<|endoftext|>" Hne Hdiff Henc).
Defined.

(** Counterexample to C9 as stated.  Playing ["abc"] at the default speed,
    the first tick is due at 100 ms; choosing "Fast" at 40 ms replaces it by
    a tick due at 90 ms. *)
Lemma speed_change_moves_the_pending_tick :
  let m := play [TextChange "abc"; PlayPauseClick; Elapse 40] fresh in
  let m' := react byteTiktoken (SpeedChange Fast) m in
  now m = 40
  /\ option_map due (pending m) = Some 100
  /\ option_map due (pending m') = Some 90
  /\ pending m' <> pending m.
Proof. vm_compute. repeat split. discriminate. Qed.

Lemma speed_change_reschedules_pending_tick_witness :
  let m := play [TextChange "abc"; PlayPauseClick; Elapse 40] fresh in
  (isPlaying (ui m) = true
   /\ currentTokenIndex (ui m) < arrayLength (tokens (ui m))
   /\ optionValue Fast <> playbackSpeed (ui m)
   /\ optionValue Normal = playbackSpeed (ui m))
  /\ pending (react byteTiktoken (SpeedChange Fast) m) =
       Some {| scheduledAt := 40; delay := 50; capturedLength := 3 |}
  /\ react byteTiktoken (SpeedChange Normal) m = m.
Proof.
  intro m.
  assert (Hplay : isPlaying (ui m) = true) by reflexivity.
  assert (Hlt : currentTokenIndex (ui m) < arrayLength (tokens (ui m)))
    by reflexivity.
  assert (Hfast : optionValue Fast <> playbackSpeed (ui m))
    by (vm_compute; discriminate).
  assert (Hnormal : optionValue Normal = playbackSpeed (ui m)) by reflexivity.
  split; [auto|].
  destruct (speed_change_reschedules_pending_tick byteTiktoken m Fast Hplay Hlt)
    as [Hchange _].
  destruct (speed_change_reschedules_pending_tick byteTiktoken m Normal
              Hplay Hlt) as [_ Hsame].
  split; [|exact (Hsame Hnormal)].
  rewrite (Hchange Hfast). reflexivity.
Defined.

(** * The further properties on concrete inputs *)

Lemma play_reachable (evs : list Event) (m : Machine) :
  Reachable byteTiktoken markLz m ->
  Reachable byteTiktoken markLz (play evs m).
Proof.
  revert m. induction evs as [|ev evs IH]; intros m Hm.
  - exact Hm.
  - apply (IH (react byteTiktoken ev m)). now apply reach_react.
Qed.

Lemma fresh_reachable : Reachable byteTiktoken markLz fresh.
Proof. apply reach_mount. Qed.

Lemma reachable_coherent_witness :
  let m := play [TextChange "abc"; PlayPauseClick] fresh in
  Reachable byteTiktoken markLz m /\ coherent m.
Proof.
  intro m.
  assert (Hreach : Reachable byteTiktoken markLz m)
    by (apply play_reachable, fresh_reachable).
  split; [exact Hreach|].
  exact (reachable_coherent byteTiktoken markLz m Hreach).
Defined.

Lemma reachable_cursor_in_bounds_witness :
  let m := play [TextChange "abc"; SkipClick; TextChange "<|endoftext|>"]
             fresh in
  Reachable byteTiktoken markLz m
  /\ 0 <= currentTokenIndex (ui m)
  /\ (currentTokenIndex (ui m) <= arrayLength (tokens (ui m))
      \/ (tokens (ui m) = []
          /\ exists text, encode byteTiktoken text = Thrown)).
Proof.
  intro m.
  assert (Hreach : Reachable byteTiktoken markLz m)
    by (apply play_reachable, fresh_reachable).
  split; [exact Hreach|].
  exact (reachable_cursor_in_bounds byteTiktoken markLz m Hreach).
Defined.

Lemma reachable_tokens_in_sync_witness :
  let m := play [TextChange "abc"; PlayPauseClick] fresh in
  Reachable byteTiktoken markLz m
  /\ markdown (ui m) <> ""
  /\ tokens (ui m) = tokenized byteTiktoken (markdown (ui m)).
Proof.
  intro m.
  assert (Hreach : Reachable byteTiktoken markLz m)
    by (apply play_reachable, fresh_reachable).
  assert (Hne : markdown (ui m) <> "") by (vm_compute; discriminate).
  split; [exact Hreach|]. split; [exact Hne|].
  exact (reachable_tokens_in_sync byteTiktoken markLz m Hreach Hne).
Defined.

Lemma reachable_speed_is_offered_witness :
  let m := play [SpeedChange Slow; TextChange "abc"] fresh in
  Reachable byteTiktoken markLz m
  /\ (playbackSpeed (ui m) = 50
      \/ playbackSpeed (ui m) = 100
      \/ playbackSpeed (ui m) = 200).
Proof.
  intro m.
  assert (Hreach : Reachable byteTiktoken markLz m)
    by (apply play_reachable, fresh_reachable).
  split; [exact Hreach|].
  exact (reachable_speed_is_offered byteTiktoken markLz m Hreach).
Defined.

Lemma skip_to_end_shows_decoded_text_witness :
  let m := play [TextChange "a b c"; PlayPauseClick] fresh in
  Reachable byteTiktoken markLz m
  /\ markdown (ui m) <> ""
  /\ tokenized byteTiktoken (markdown (ui m)) <> []
  /\ getCurrentMarkdown byteTiktoken (ui (react byteTiktoken SkipClick m)) =
       match decode byteTiktoken (tokenized byteTiktoken (markdown (ui m)))
       with
       | Returned text => text
       | Thrown => ""
       end.
Proof.
  intro m.
  assert (Hreach : Reachable byteTiktoken markLz m)
    by (apply play_reachable, fresh_reachable).
  assert (Hne : markdown (ui m) <> "") by (vm_compute; discriminate).
  assert (Htok : tokenized byteTiktoken (markdown (ui m)) <> [])
    by (vm_compute; discriminate).
  split; [exact Hreach|]. split; [exact Hne|]. split; [exact Htok|].
  exact (skip_to_end_shows_decoded_text byteTiktoken markLz m
           Hreach Hne Htok).
Defined.

Lemma only_text_change_edits_text_witness :
  let m := play [TextChange "abc"; PlayPauseClick] fresh in
  isTextChange TimerFires = false
  /\ markdown (ui (react byteTiktoken TimerFires m)) = markdown (ui m)
  /\ tokens (ui (react byteTiktoken TimerFires m)) = tokens (ui m).
Proof.
  intro m.
  assert (Hev : isTextChange TimerFires = false) by reflexivity.
  split; [exact Hev|].
  exact (only_text_change_edits_text byteTiktoken TimerFires m Hev).
Defined.

Lemma encode_failure_stops_playback_witness :
  let m := play [TextChange "abc"; PlayPauseClick] fresh in
  let m' := react byteTiktoken (TextChange "<|endoftext|>") m in
  (Reachable byteTiktoken markLz m
   /\ isPlaying (ui m) = true
   /\ "<|endoftext|>" <> "" /\ "<|endoftext|>" <> markdown (ui m)
   /\ encode byteTiktoken "<|endoftext|>" = Thrown)
  /\ tokens (ui m') = [] /\ isPlaying (ui m') = false /\ pending m' = None.
Proof.
  intros m m'.
  assert (Hreach : Reachable byteTiktoken markLz m)
    by (apply play_reachable, fresh_reachable).
  assert (Hne : "<|endoftext|>" <> "") by discriminate.
  assert (Hdiff : "<|endoftext|>" <> markdown (ui m))
    by (vm_compute; discriminate).
  assert (Henc : encode byteTiktoken "<|endoftext|>" = Thrown) by reflexivity.
  split; [repeat split; auto|].
  exact (encode_failure_stops_playback byteTiktoken markLz m "<|endoftext|>"
           Hreach Hne Hdiff Henc).
Defined.

Lemma other_keys_are_ignored_witness :
  let m := play [TextChange "abc"; PlayPauseClick] fresh in
  let typed := {| targetIsTextArea := true; key := "ArrowLeft" |} in
  let escape := {| targetIsTextArea := false; key := "Escape" |} in
  targetIsTextArea typed = true
  /\ (key escape <> "ArrowLeft" /\ key escape <> "ArrowRight"
      /\ key escape <> " ")
  /\ react byteTiktoken (KeyDown typed) m = m
  /\ react byteTiktoken (KeyDown escape) m = m.
Proof.
  intros m typed escape.
  assert (Htyped : targetIsTextArea typed = true) by reflexivity.
  assert (Hescape : key escape <> "ArrowLeft" /\ key escape <> "ArrowRight"
                    /\ key escape <> " ")
    by (repeat split; discriminate).
  split; [exact Htyped|]. split; [exact Hescape|]. split.
  - exact (other_keys_are_ignored byteTiktoken typed m (or_introl Htyped)).
  - exact (other_keys_are_ignored byteTiktoken escape m (or_intror Hescape)).
Defined.

Lemma pause_cancels_pending_tick_witness :
  let m := play [TextChange "abc"; PlayPauseClick] fresh in
  let paused :=
    {| ui := setIsPlaying false (ui m); pending := None; now := now m |} in
  (isPlaying (ui m) = true /\ pending m <> None)
  /\ react byteTiktoken PlayPauseClick m = paused
  /\ react byteTiktoken
       (KeyDown {| targetIsTextArea := false; key := " " |}) m = paused.
Proof.
  intros m paused.
  assert (Hplay : isPlaying (ui m) = true) by reflexivity.
  split; [split; [exact Hplay|vm_compute; discriminate]|].
  exact (pause_cancels_pending_tick byteTiktoken m Hplay).
Defined.

Lemma play_then_pause_restores_witness :
  let m := play [TextChange "abc"] fresh in
  (isPlaying (ui m) = false /\ pending m = None
   /\ currentTokenIndex (ui m) < arrayLength (tokens (ui m)))
  /\ react byteTiktoken PlayPauseClick (react byteTiktoken PlayPauseClick m)
     = m.
Proof.
  intro m.
  assert (Hstop : isPlaying (ui m) = false) by reflexivity.
  assert (Hnone : pending m = None) by reflexivity.
  assert (Hlt : currentTokenIndex (ui m) < arrayLength (tokens (ui m)))
    by reflexivity.
  split; [auto|].
  exact (play_then_pause_restores byteTiktoken m Hstop Hnone Hlt).
Defined.

Lemma arrow_keys_undo_each_other_witness :
  let left := KeyDown {| targetIsTextArea := false; key := "ArrowLeft" |} in
  let right := KeyDown {| targetIsTextArea := false; key := "ArrowRight" |} in
  let m := play [TextChange "abc"; right] fresh in
  (0 <= currentTokenIndex (ui m) < arrayLength (tokens (ui m))
   /\ 0 < currentTokenIndex (ui m) <= arrayLength (tokens (ui m)))
  /\ currentTokenIndex (ui (run byteTiktoken [right; left] m))
     = currentTokenIndex (ui m)
  /\ currentTokenIndex (ui (run byteTiktoken [left; right] m))
     = currentTokenIndex (ui m).
Proof.
  intros left right m.
  assert (Hin : 0 <= currentTokenIndex (ui m) < arrayLength (tokens (ui m)))
    by (vm_compute; split; [discriminate|reflexivity]).
  assert (Hin' : 0 < currentTokenIndex (ui m) <= arrayLength (tokens (ui m)))
    by (vm_compute; split; [reflexivity|discriminate]).
  split; [auto|].
  destruct (arrow_keys_undo_each_other byteTiktoken m) as (Hrl & Hlr & _).
  split; [exact (Hrl Hin)|exact (Hlr Hin')].
Defined.

Lemma empty_tokens_navigation_witness :
  let left := KeyDown {| targetIsTextArea := false; key := "ArrowLeft" |} in
  let right := KeyDown {| targetIsTextArea := false; key := "ArrowRight" |} in
  let m := play [TextChange "abc"; SkipClick; TextChange "<|endoftext|>"]
             fresh in
  (tokens (ui m) = [] /\ currentTokenIndex (ui m) = 3)
  /\ currentTokenIndex (ui (react byteTiktoken right m)) = 0
  /\ currentTokenIndex (ui (react byteTiktoken SkipClick m)) = 0
  /\ currentTokenIndex (ui (react byteTiktoken ResetClick m)) = 0
  /\ currentTokenIndex (ui (react byteTiktoken left m))
     = Z.max 0 (currentTokenIndex (ui m) - 1).
Proof.
  intros left right m.
  assert (Htok : tokens (ui m) = []) by reflexivity.
  assert (Hlo : 0 <= currentTokenIndex (ui m)) by (vm_compute; discriminate).
  split; [split; [exact Htok|reflexivity]|].
  exact (empty_tokens_navigation byteTiktoken m Htok Hlo).
Defined.

Lemma token_click_reveals_through_token_witness :
  let m := play [TextChange "abc"] fresh in
  let m' := react byteTiktoken (TokenClick 1) m in
  rendered 1 (ui m) = true
  /\ currentTokenIndex (ui m') = 1 + 1
  /\ tokens (ui m') = tokens (ui m)
  /\ (forall j : Z, (j <? currentTokenIndex (ui m')) = (j <=? 1))
  /\ getCurrentMarkdown byteTiktoken (ui m') =
       match decode byteTiktoken (firstn (S (Z.to_nat 1)) (tokens (ui m)))
       with
       | Returned text => text
       | Thrown => ""
       end.
Proof.
  intros m m'.
  assert (Hr : rendered 1 (ui m) = true) by reflexivity.
  split; [exact Hr|].
  exact (token_click_reveals_through_token byteTiktoken 1 m Hr).
Defined.

Lemma ticks_are_one_speed_apart_witness :
  let m := play [TextChange "abc"; Elapse 7] fresh in
  (isPlaying (ui m) = false /\ 0 <= playbackSpeed (ui m)
   /\ currentTokenIndex (ui m) + Z.of_nat 2 <= arrayLength (tokens (ui m))
   /\ currentTokenIndex (ui m) < arrayLength (tokens (ui m)))
  /\ now (ticks byteTiktoken 2 (react byteTiktoken PlayPauseClick m))
     = now m + Z.of_nat 2 * playbackSpeed (ui m).
Proof.
  intro m.
  assert (Hstop : isPlaying (ui m) = false) by reflexivity.
  assert (Hsp : 0 <= playbackSpeed (ui m)) by (vm_compute; discriminate).
  assert (Hj : currentTokenIndex (ui m) + Z.of_nat 2
               <= arrayLength (tokens (ui m))) by (vm_compute; discriminate).
  assert (Hlt : currentTokenIndex (ui m) < arrayLength (tokens (ui m)))
    by reflexivity.
  split; [auto|].
  exact (ticks_are_one_speed_apart byteTiktoken m 2 Hstop Hsp Hj Hlt).
Defined.

Lemma visualization_shows_every_token_witness :
  tokenVisualization byteTiktoken tabbed = Returned tabbedSpans
  /\ List.length tabbedSpans = List.length (tokens tabbed)
  /\ forall (k : nat) (span : TokenSpan),
       nth_error tabbedSpans k = Some span ->
       spanIndex span = Z.of_nat k
       /\ isActive span = (Z.of_nat k <? currentTokenIndex tabbed)
       /\ (exists token,
             nth_error (tokens tabbed) k = Some token
             /\ decode byteTiktoken [token] = Returned (tokenText span))
       /\ spanLabel span <> ""
       /\ includesChar tabChar (spanLabel span) = false
       /\ includesChar newlineChar (spanLabel span) = false.
Proof.
  assert (Hr : tokenVisualization byteTiktoken tabbed = Returned tabbedSpans)
    by reflexivity.
  split; [exact Hr|].
  exact (visualization_shows_every_token byteTiktoken tabbed tabbedSpans Hr).
Defined.

Lemma visualization_highlights_cursor_many_witness :
  tokenVisualization byteTiktoken tabbed = Returned tabbedSpans
  /\ arrayLength (filter isActive tabbedSpans)
     = Z.max 0 (Z.min (currentTokenIndex tabbed)
                  (arrayLength (tokens tabbed))).
Proof.
  assert (Hr : tokenVisualization byteTiktoken tabbed = Returned tabbedSpans)
    by reflexivity.
  split; [exact Hr|].
  exact (visualization_highlights_cursor_many byteTiktoken tabbed
           tabbedSpans Hr).
Defined.

(** The labels of [a<TAB>b]: the tab is shown by its mark. *)
Example tabbed_labels :
  List.map spanLabel tabbedSpans = ["a"; tabMark; "b"]
  /\ List.map isActive tabbedSpans = [true; false; false].
Proof. vm_compute. auto. Qed.

Lemma visualization_throws_iff_a_token_does_witness :
  let s := setTokens [97; 300; 98] initialState in
  (exists token, In token (tokens s) /\ decode narrowTiktoken [token] = Thrown)
  /\ tokenVisualization narrowTiktoken s = Thrown.
Proof.
  intro s.
  assert (Hbad : exists token,
             In token (tokens s) /\ decode narrowTiktoken [token] = Thrown).
  { exists 300. split; [right; left; reflexivity|reflexivity]. }
  split; [exact Hbad|].
  exact (proj2 (visualization_throws_iff_a_token_does narrowTiktoken s) Hbad).
Defined.

Lemma step_back_leaves_stale_cursor_out_of_range_witness :
  let left := KeyDown {| targetIsTextArea := false; key := "ArrowLeft" |} in
  let m := play [TextChange "a b c"; SkipClick; TextChange "<|endoftext|>"]
             fresh in
  let m' := react byteTiktoken left m in
  (Reachable byteTiktoken markLz m
   /\ tokens (ui m) = []
   /\ currentTokenIndex (ui m) = 5)
  /\ tokens (ui m') = []
  /\ currentTokenIndex (ui m') = currentTokenIndex (ui m) - 1
  /\ arrayLength (tokens (ui m')) < currentTokenIndex (ui m').
Proof.
  intros left m m'.
  assert (Hreach : Reachable byteTiktoken markLz m)
    by (apply play_reachable, fresh_reachable).
  assert (Htok : tokens (ui m) = []) by reflexivity.
  assert (Hc : 2 <= currentTokenIndex (ui m)) by (vm_compute; discriminate).
  split; [split; [exact Hreach|split; [exact Htok|reflexivity]]|].
  exact (step_back_leaves_stale_cursor_out_of_range byteTiktoken m Htok Hc).
Defined.

Lemma link_text_is_restored_or_default_kept_witness :
  let s := ui (play [TextChange "x
y"] fresh) in
  let token := handleShare markLz s in
  let restored := mount byteTiktoken markLz (Some token) 0 in
  let broken := mount byteTiktoken markLz (Some "!broken") 0 in
  (token <> "" /\ markdown s <> ""
   /\ decompressFromEncodedURIComponent markLz token
      = Returned (Some (markdown s))
   /\ decompressFromEncodedURIComponent markLz "!broken" = Thrown)
  /\ (markdown (ui restored) = markdown s
      /\ tokens (ui restored) = tokenized byteTiktoken (markdown s))
  /\ (markdown (ui broken) = defaultMarkdown
      /\ tokens (ui broken) = tokenized byteTiktoken defaultMarkdown).
Proof.
  intros s token restored broken.
  assert (Htoken : token <> "") by (vm_compute; discriminate).
  assert (Htext : markdown s <> "") by (vm_compute; discriminate).
  assert (Hdec : decompressFromEncodedURIComponent markLz token
                 = Returned (Some (markdown s))) by reflexivity.
  assert (Hbad : decompressFromEncodedURIComponent markLz "!broken" = Thrown)
    by reflexivity.
  split; [auto|].
  destruct (link_text_is_restored_or_default_kept byteTiktoken markLz
              (Some token) 0) as [Hgood _].
  destruct (link_text_is_restored_or_default_kept byteTiktoken markLz
              (Some "!broken") 0) as [_ Hfall].
  split.
  - exact (Hgood token (markdown s) eq_refl Htoken Htext Hdec).
  - apply Hfall. right. right. exists "!broken".
    split; [reflexivity|]. left. exact Hbad.
Defined.
